(** * Calendario de marketing: the two [server.js] variants

    A shallow embedding of the HTTP handlers of the marketing calendar:
    the session-auth variant backed by Supabase (tables
    [marketing_users] and [marketing_events]) and the open variant backed
    by SQLite (table [events]).

    Conventions of the model.
    - A field of a JSON body or of the query string is a [field]:
      [None] for a field that is absent (or null), [Some s] for a string.
    - A table is the list of its rows in the order in which its engine
      reads them.  The clauses [WHERE] and [ORDER BY] are a filter
      followed by a stable sort; text is compared byte-wise, as SQLite
      does for [TEXT] columns and as ISO dates and times demand.
      Rows that compare equal come in the order of the table; the source
      names no tie-breaker, and as the order of a table is open, so is
      theirs: two stores with the same rows may list them differently,
      and every sorted arrangement is the list of some table.
    - The route parameter [:id] is the number it denotes.
    - [req.body] is an object of fields or, in the SQLite variant, may
      be missing altogether ([undefined]): that variant reads it without
      the [|| {}] of the Supabase variant, for which a missing body and an
      empty object are the same.
    - The store keeps a log of the calls it received, and a list
      [faults] saying, call by call, which of the calls to come is
      answered with an error (Supabase) or throws (SQLite): this is how
      the [500] branches are reached, also in the middle of a request. *)

From Stdlib Require Import String Ascii List NArith Bool Lia.
From Stdlib Require Import Sorted Permutation.
Import ListNotations.
Local Open Scope N_scope.
Local Open Scope string_scope.

Set Implicit Arguments.
Local Set Warnings "-register-all".

(** ** JavaScript values of the requests *)

Definition field := option string.

(** Truthiness: [undefined], [null] and the empty string are falsy. *)
Definition truthy (f : field) : bool :=
  match f with
  | None => false
  | Some s => negb (s =? "")
  end.

(** [f || d] *)
Definition or_else (f d : field) : field := if truthy f then f else d.

(** The string held by a field that passed a truthiness test. *)
Definition text (f : field) : string :=
  match f with
  | Some s => s
  | None => ""
  end.

(** Reverse application, for chains of builder calls. *)
Notation "x |> f" := (f x) (at level 61, left associativity, only parsing).

(** ** Rows *)

Module Fields.
(** The columns a client writes: the object given to [insert] and
    [update], the six [?] of the SQL statements. *)
Record t := mk {
  date : string;
  time : string;
  title : string;
  channel : field;
  platform : field;
  notes : field
}.
End Fields.

Module Event.
Record t := mk {
  id : N;
  date : string;
  time : string;
  title : string;
  channel : field;
  platform : field;
  notes : field;
  created_at : N;
  created_by : option N
}.

(** A new row: id and creation time come from the store. *)
Definition create (i : N) (v : Fields.t) (at_ : N) (by_ : option N) : t :=
  {| id := i;
     date := Fields.date v; time := Fields.time v; title := Fields.title v;
     channel := Fields.channel v; platform := Fields.platform v;
     notes := Fields.notes v;
     created_at := at_; created_by := by_ |}.

(** [SET date = ?, time = ?, title = ?, channel = ?, platform = ?, notes = ?] *)
Definition set (v : Fields.t) (e : t) : t :=
  {| id := id e;
     date := Fields.date v; time := Fields.time v; title := Fields.title v;
     channel := Fields.channel v; platform := Fields.platform v;
     notes := Fields.notes v;
     created_at := created_at e; created_by := created_by e |}.
End Event.

Module User.
Record t := mk {
  id : N;
  email : string;
  password : string;
  role : string;
  active : bool
}.
End User.

Module SessionUser.
(** [req.session.user] *)
Record t := mk {
  id : N;
  email : string;
  role : string
}.
End SessionUser.

(** ** The store *)

Inductive call : Type :=
| SelectUser (email : string)
| SelectEvents (start end_ : string)
| SelectEvent (id : N)
| InsertEvent (v : Fields.t)
| UpdateEvent (id : N) (v : Fields.t)
| DeleteEvent (id : N).

(** A table is a list of rows in the order in which its engine reads
    them.  That order is the engine's own: nothing in [server.js] fixes
    it, and two stores may hold the same rows in different orders. *)
Record store := mkStore {
  events : list Event.t;
  users : list User.t;
  next_id : N;
  now : N;
  faults : list bool;   (* for each call to come: does it fail? *)
  calls : list call
}.

(** The next call fails. *)
Definition fails (s : store) : bool := hd false (faults s).

(** Some call to come fails; [failing s = false] is a store that
    answers every call. *)
Definition failing (s : store) : bool := existsb (fun down => down) (faults s).

Arguments fails : simpl never.
Arguments failing : simpl never.

(** A call is made: it is logged and its fault flag is used up. *)
Definition log (c : call) (s : store) : store :=
  {| events := events s; users := users s; next_id := next_id s;
     now := now s; faults := tl (faults s); calls := calls s ++ [c] |}.

Definition with_events (rows : list Event.t) (s : store) : store :=
  {| events := rows; users := users s; next_id := next_id s;
     now := now s; faults := faults s; calls := calls s |}.

Definition bump_id (s : store) : store :=
  {| events := events s; users := users s; next_id := N.succ (next_id s);
     now := now s; faults := faults s; calls := calls s |}.

(** ** Ordering rows *)

Section OrderBy.
Variable R : Type.
Variable le : R -> R -> bool.

Fixpoint place (x : R) (l : list R) : list R :=
  match l with
  | [] => [x]
  | y :: l' => if le x y then x :: y :: l' else y :: place x l'
  end.

(** Stable: rows that compare equal keep the order in which the table
    gives them.  Neither query of [server.js] has a tie-breaker, so what
    an engine does with such rows is open; since the order of a table is
    open too, every sorted arrangement of the rows is the answer for some
    table that holds them. *)
Fixpoint order_by (l : list R) : list R :=
  match l with
  | [] => []
  | x :: l' => place x (order_by l')
  end.
End OrderBy.

(** ** Responses *)

Inductive payload : Type :=
| p_error (msg : string)            (* { error: msg } *)
| p_events (rows : list Event.t)    (* an array of rows *)
| p_event (row : option Event.t)    (* a row, or nothing *)
| p_success                         (* { success: true } *)
| p_user (u : SessionUser.t)        (* { id, email, role } *)
| p_html.                           (* the error page of Express, not JSON *)

Record response := res {
  status : N;
  body : payload
}.

(** The JSON text of a body, as a tree ([p_html] has none). *)
Inductive json : Type :=
| JNull
| JBool (b : bool)
| JNum (n : N)
| JStr (s : string)
| JArr (l : list json)
| JObj (l : list (string * json)).

Definition json_of_field (f : field) : json :=
  match f with
  | Some s => JStr s
  | None => JNull
  end.

Definition json_of_event (e : Event.t) : json :=
  JObj [("id", JNum (Event.id e));
        ("date", JStr (Event.date e));
        ("time", JStr (Event.time e));
        ("title", JStr (Event.title e));
        ("channel", json_of_field (Event.channel e));
        ("platform", json_of_field (Event.platform e));
        ("notes", json_of_field (Event.notes e));
        ("created_at", JNum (Event.created_at e));
        ("created_by", match Event.created_by e with
                       | Some u => JNum u
                       | None => JNull
                       end)].

Definition to_json (p : payload) : json :=
  match p with
  | p_error msg => JObj [("error", JStr msg)]
  | p_events rows => JArr (map json_of_event rows)
  | p_event (Some e) => json_of_event e
  | p_event None => JNull
  | p_success => JObj [("success", JBool true)]
  | p_user u => JObj [("id", JNum (SessionUser.id u));
                      ("email", JStr (SessionUser.email u));
                      ("role", JStr (SessionUser.role u))]
  | p_html => JNull
  end.

Definition keys (j : json) : list string :=
  match j with
  | JObj l => map fst l
  | _ => []
  end.

(** ** Requests *)

Module Range.
(** [req.query] of [GET /api/events] *)
Record t := mk { start : field; end_ : field }.
End Range.

Module Body.
(** [req.body] of [POST /api/events] and [PUT /api/events/:id], when
    there is one.  Where there is none, [req.body] is [undefined] (as
    Express 5 leaves it when nothing was parsed) and the handlers of the
    SQLite variant, which take an [option t], are given [None].  For the
    Supabase variant, which reads [req.body || {}], a request without a
    body is the body with every field absent, [nothing]. *)
Record t := mk {
  date : field;
  time : field;
  title : field;
  channel : field;
  platform : field;
  notes : field
}.

(** [{}] *)
Definition nothing : t :=
  {| date := None; time := None; title := None;
     channel := None; platform := None; notes := None |}.
End Body.

Module Credentials.
(** [req.body] of [POST /api/login] *)
Record t := mk { email : field; password : field }.
End Credentials.

(** ** The Supabase client

    A query is built by chained calls and run against a table.  Each
    filter call adds a condition, all of which must hold; each [order]
    call adds a sort key, earlier keys being more significant. *)

Module Supabase.

Record result (A : Type) := mkResult {
  data : option A;
  error : option string;
  count : option N
}.

Definition failure {A : Type} : result A :=
  {| data := None; error := Some "store error"; count := None |}.

Definition success {A : Type} (d : option A) (c : option N) : result A :=
  {| data := d; error := None; count := c |}.

Record query (R : Type) := mkQuery {
  conditions : list (R -> bool);
  ordering : list (R -> R -> comparison)
}.

Section Builder.
Variable R : Type.

(** [.from(table).select(...)], [.update(...)] or [.delete(...)]
    before any filter *)
Definition from : query R := {| conditions := []; ordering := [] |}.

Definition where_ (c : R -> bool) (q : query R) : query R :=
  {| conditions := conditions q ++ [c]; ordering := ordering q |}.

Definition gte (col : R -> string) (v : string) : query R -> query R :=
  where_ (fun r => v <=? col r).

Definition lte (col : R -> string) (v : string) : query R -> query R :=
  where_ (fun r => col r <=? v).

Definition eq (col : R -> string) (v : string) : query R -> query R :=
  where_ (fun r => col r =? v).

Definition eq_id (col : R -> N) (v : N) : query R -> query R :=
  where_ (fun r => (col r =? v)%N).

Definition order (col : R -> string) (ascending : bool) (q : query R)
  : query R :=
  {| conditions := conditions q;
     ordering := ordering q ++
       [fun a b => if ascending then col a ?= col b else col b ?= col a] |}.

Definition matches (q : query R) (r : R) : bool :=
  forallb (fun c => c r) (conditions q).

Fixpoint before (keys : list (R -> R -> comparison)) (a b : R) : bool :=
  match keys with
  | [] => true
  | k :: keys' =>
      match k a b with
      | Lt => true
      | Eq => before keys' a b
      | Gt => false
      end
  end.

(** The rows a query returns: those that meet every condition, by the
    sort keys; rows equal on every key come as the table gives them. *)
Definition rows_of (q : query R) (table : list R) : list R :=
  order_by (before (ordering q)) (filter (matches q) table).

(** [.maybeSingle()]: no row is [null], two rows are an error. *)
Definition maybeSingle (rows : list R) : result R :=
  match rows with
  | [] => success None None
  | [r] => success (Some r) None
  | _ => failure
  end.

(** [.single()]: exactly one row, or an error. *)
Definition single (rows : list R) : result R :=
  match rows with
  | [r] => success (Some r) None
  | _ => failure
  end.
End Builder.

(** [supabase.from("marketing_users").select(...) ... .maybeSingle()] *)
Definition select_user (email : string) (q : query User.t) (s : store)
  : result User.t * store :=
  let down := fails s in
  let s := log (SelectUser email) s in
  if down then (failure, s)
  else (maybeSingle (rows_of q (users s)), s).

(** [supabase.from("marketing_events").select("*") ...] *)
Definition select_events (start end_ : string) (q : query Event.t) (s : store)
  : result (list Event.t) * store :=
  let down := fails s in
  let s := log (SelectEvents start end_) s in
  if down then (failure, s)
  else (success (Some (rows_of q (events s))) None, s).

(** [supabase.from("marketing_events").insert(v).select("*").single()] *)
Definition insert (v : Fields.t) (by_ : N) (s : store)
  : result Event.t * store :=
  let down := fails s in
  let s := log (InsertEvent v) s in
  if down then (failure, s)
  else
    let row := Event.create (next_id s) v (now s) (Some by_) in
    (single [row], bump_id (with_events (events s ++ [row]) s)).

(** [supabase.from("marketing_events").update(v) ... .select("*").maybeSingle()] *)
Definition update (id : N) (v : Fields.t) (q : query Event.t) (s : store)
  : result Event.t * store :=
  let down := fails s in
  let s := log (UpdateEvent id v) s in
  if down then (failure, s)
  else
    let rows :=
      map (fun r => if matches q r then Event.set v r else r) (events s) in
    (maybeSingle (map (Event.set v) (filter (matches q) (events s))),
     with_events rows s).

(** [supabase.from("marketing_events").delete({ count: "exact" }) ...] *)
Definition delete (id : N) (q : query Event.t) (s : store)
  : result unit * store :=
  let down := fails s in
  let s := log (DeleteEvent id) s in
  if down then (failure, s)
  else
    let gone := filter (matches q) (events s) in
    (success None (Some (N.of_nat (length gone))),
     with_events (filter (fun r => negb (matches q r)) (events s)) s).

End Supabase.

(** ** The SQLite driver

    A statement either returns or throws; [run] reports the number of
    rows it changed and the last row id. *)

Module Sqlite.

Inductive outcome (A : Type) : Type :=
| returned (a : A)
| thrown.
Arguments thrown {A}.

Record info := mkInfo {
  changes : N;
  lastInsertRowid : N
}.

Definition count (rows : list Event.t) : N := N.of_nat (length rows).

(** [WHERE date >= ? AND date <= ?] *)
Definition in_range (start end_ : string) (r : Event.t) : bool :=
  (start <=? Event.date r) && (Event.date r <=? end_).

(** [ORDER BY date ASC, time ASC] *)
Definition by_date_time (a b : Event.t) : bool :=
  (Event.date a <? Event.date b) ||
  ((Event.date a =? Event.date b) && (Event.time a <=? Event.time b)).

(** [SELECT * FROM events WHERE date >= ? AND date <= ?
     ORDER BY date ASC, time ASC], [.all(start, end)] *)
Definition all_in_range (start end_ : string) (s : store)
  : outcome (list Event.t) * store :=
  let down := fails s in
  let s := log (SelectEvents start end_) s in
  if down then (thrown, s)
  else
    (returned
       (order_by by_date_time (filter (in_range start end_) (events s))),
     s).

(** [INSERT INTO events (date, time, title, channel, platform, notes)
     VALUES (?, ?, ?, ?, ?, ?)], [.run(...)] *)
Definition insert (v : Fields.t) (s : store) : outcome info * store :=
  let down := fails s in
  let s := log (InsertEvent v) s in
  if down then (thrown, s)
  else
    let row := Event.create (next_id s) v (now s) None in
    (returned {| changes := 1; lastInsertRowid := next_id s |},
     bump_id (with_events (events s ++ [row]) s)).

(** [SELECT * FROM events WHERE id = ?], [.get(id)]: the first row. *)
Definition get (id : N) (s : store) : outcome (option Event.t) * store :=
  let down := fails s in
  let s := log (SelectEvent id) s in
  if down then (thrown, s)
  else
    (returned (find (fun r => (Event.id r =? id)%N) (events s)), s).

(** [UPDATE events SET ... WHERE id = ?], [.run(..., id)] *)
Definition update (v : Fields.t) (id : N) (s : store)
  : outcome info * store :=
  let down := fails s in
  let s := log (UpdateEvent id v) s in
  if down then (thrown, s)
  else
    let hit r := (Event.id r =? id)%N in
    (returned {| changes := count (filter hit (events s));
                 lastInsertRowid := N.pred (next_id s) |},
     with_events (map (fun r => if hit r then Event.set v r else r) (events s))
       s).

(** [DELETE FROM events WHERE id = ?], [.run(id)] *)
Definition delete (id : N) (s : store) : outcome info * store :=
  let down := fails s in
  let s := log (DeleteEvent id) s in
  if down then (thrown, s)
  else
    let hit r := (Event.id r =? id)%N in
    (returned {| changes := count (filter hit (events s));
                 lastInsertRowid := N.pred (next_id s) |},
     with_events (filter (fun r => negb (hit r)) (events s)) s).

End Sqlite.

(** ** Required fields *)

(** [!date || !time || !title] *)
Definition incomplete (b : Body.t) : bool :=
  negb (truthy (Body.date b)) || negb (truthy (Body.time b)) ||
  negb (truthy (Body.title b)).

(** ** The session-auth variant (Supabase) *)

Module Auth.
Import Supabase.

Definition session := option SessionUser.t.

Definition requireAuth (sess : session) (next : store -> response * store)
  (s : store) : response * store :=
  match sess with
  | None => (res 401 (p_error "No autenticado"), s)
  | Some _ => next s
  end.

Definition requireAdmin (sess : session) (next : store -> response * store)
  (s : store) : response * store :=
  match sess with
  | None => (res 401 (p_error "No autenticado"), s)
  | Some u =>
      if negb (SessionUser.role u =? "admin")
      then (res 403 (p_error "No autorizado (se requiere admin)"), s)
      else next s
  end.

(** [POST /api/login] *)
Definition post_login (c : Credentials.t) (sess : session) (s : store)
  : response * session * store :=
  let email := Credentials.email c in
  let password := Credentials.password c in
  if negb (truthy email) || negb (truthy password) then
    (res 400 (p_error "Email y contraseña son obligatorios."), sess, s)
  else
    let '(r, s) :=
      select_user (text email) (from _ |> eq User.email (text email)) s in
    match error r with
    | Some _ => (res 500 (p_error "Error interno"), sess, s)
    | None =>
        match data r with
        | None => (res 401 (p_error "Credenciales inválidas"), sess, s)
        | Some user =>
            if negb (User.active user) then
              (res 401 (p_error "Credenciales inválidas"), sess, s)
            else if negb (User.password user =? text password) then
              (res 401 (p_error "Credenciales inválidas"), sess, s)
            else
              let u := {| SessionUser.id := User.id user;
                          SessionUser.email := User.email user;
                          SessionUser.role := User.role user |} in
              (res 200 (p_user u), Some u, s)
        end
    end.

(** [POST /api/logout] *)
Definition post_logout (sess : session) (s : store)
  : response * session * store :=
  (res 200 p_success, None, s).

(** Handler of [GET /api/events] *)
Definition get_events (q : Range.t) (s : store) : response * store :=
  let start := Range.start q in
  let end_ := Range.end_ q in
  if negb (truthy start) || negb (truthy end_) then
    (res 400 (p_error "Los parámetros 'start' y 'end' son obligatorios."), s)
  else
    let '(r, s) :=
      select_events (text start) (text end_)
        (from _ |> gte Event.date (text start)
                |> lte Event.date (text end_)
                |> order Event.date true
                |> order Event.time true) s in
    match error r with
    | Some _ => (res 500 (p_error "Error al obtener eventos"), s)
    | None =>
        (res 200 (p_events match data r with Some d => d | None => [] end), s)
    end.

(** Handler of [POST /api/events] *)
Definition post_events (sess : session) (b : Body.t) (s : store)
  : response * store :=
  if incomplete b then
    (res 400
       (p_error "Los campos 'date', 'time' y 'title' son obligatorios."), s)
  else
    match sess with
    | None => (res 500 (p_error "Error al crear evento"), s)
    | Some u =>
        let '(r, s) :=
          insert {| Fields.date := text (Body.date b);
                    Fields.time := text (Body.time b);
                    Fields.title := text (Body.title b);
                    Fields.channel := or_else (Body.channel b) None;
                    Fields.platform := or_else (Body.platform b) None;
                    Fields.notes := or_else (Body.notes b) None |}
                 (SessionUser.id u) s in
        match error r with
        | Some _ => (res 500 (p_error "Error al crear evento"), s)
        | None => (res 201 (p_event (data r)), s)
        end
    end.

(** Handler of [PUT /api/events/:id] *)
Definition put_events (id : N) (b : Body.t) (s : store) : response * store :=
  if incomplete b then
    (res 400
       (p_error "Los campos 'date', 'time' y 'title' son obligatorios."), s)
  else
    let '(r, s) :=
      update id {| Fields.date := text (Body.date b);
                   Fields.time := text (Body.time b);
                   Fields.title := text (Body.title b);
                   Fields.channel := or_else (Body.channel b) None;
                   Fields.platform := or_else (Body.platform b) None;
                   Fields.notes := or_else (Body.notes b) None |}
             (from _ |> eq_id Event.id id) s in
    match error r with
    | Some _ => (res 500 (p_error "Error al actualizar evento"), s)
    | None =>
        match data r with
        | None => (res 404 (p_error "Evento no encontrado"), s)
        | Some row => (res 200 (p_event (Some row)), s)
        end
    end.

(** Handler of [DELETE /api/events/:id] *)
Definition delete_events (id : N) (s : store) : response * store :=
  let '(r, s) := delete id (from _ |> eq_id Event.id id) s in
  match error r with
  | Some _ => (res 500 (p_error "Error al eliminar evento"), s)
  | None =>
      match count r with
      | Some 0%N => (res 404 (p_error "Evento no encontrado"), s)
      | _ => (res 200 p_success, s)
      end
  end.

(** The routes: guard, then handler. *)
Definition route_get_events (sess : session) (q : Range.t) :=
  requireAuth sess (get_events q).
Definition route_post_events (sess : session) (b : Body.t) :=
  requireAuth sess (post_events sess b).
Definition route_put_events (sess : session) (id : N) (b : Body.t) :=
  requireAuth sess (put_events id b).
Definition route_delete_events (sess : session) (id : N) :=
  requireAdmin sess (delete_events id).

End Auth.

(** ** The open variant (SQLite) *)

Module NoAuth.
Import Sqlite.

(** [GET /api/events] *)
Definition get_events (q : Range.t) (s : store) : response * store :=
  let start := Range.start q in
  let end_ := Range.end_ q in
  if negb (truthy start) || negb (truthy end_) then
    (res 400
       (p_error
          "Los parámetros 'start' y 'end' son obligatorios (YYYY-MM-DD)."),
     s)
  else
    match all_in_range (text start) (text end_) s with
    | (returned events, s) => (res 200 (p_events events), s)
    | (thrown, s) => (res 500 (p_error "Error al obtener eventos"), s)
    end.

(** [POST /api/events].  The body is read inside the [try], with no
    [|| {}]: without a body the read throws and the [catch] answers. *)
Definition post_events (body : option Body.t) (s : store)
  : response * store :=
  match body with
  | None => (res 500 (p_error "Error al crear evento"), s)
  | Some b =>
  if incomplete b then
    (res 400
       (p_error "Los campos 'date', 'time' y 'title' son obligatorios."), s)
  else
    match insert {| Fields.date := text (Body.date b);
                    Fields.time := text (Body.time b);
                    Fields.title := text (Body.title b);
                    Fields.channel := or_else (Body.channel b) (Some "");
                    Fields.platform := or_else (Body.platform b) (Some "");
                    Fields.notes := or_else (Body.notes b) (Some "") |} s with
    | (thrown, s) => (res 500 (p_error "Error al crear evento"), s)
    | (returned info, s) =>
        match get (lastInsertRowid info) s with
        | (thrown, s) => (res 500 (p_error "Error al crear evento"), s)
        | (returned newEvent, s) => (res 201 (p_event newEvent), s)
        end
    end
  end.

(** What Express answers when a handler throws: 500 and its error
    page. *)
Definition uncaught : response := res 500 p_html.

(** [PUT /api/events/:id].  The body is read before the [try], with no
    [|| {}]: without a body the handler throws. *)
Definition put_events (id : N) (body : option Body.t) (s : store)
  : response * store :=
  match body with
  | None => (uncaught, s)
  | Some b =>
  if incomplete b then
    (res 400
       (p_error "Los campos 'date', 'time' y 'title' son obligatorios."), s)
  else
    match update {| Fields.date := text (Body.date b);
                    Fields.time := text (Body.time b);
                    Fields.title := text (Body.title b);
                    Fields.channel := or_else (Body.channel b) (Some "");
                    Fields.platform := or_else (Body.platform b) (Some "");
                    Fields.notes := or_else (Body.notes b) (Some "") |}
                 id s with
    | (thrown, s) => (res 500 (p_error "Error al actualizar evento"), s)
    | (returned result, s) =>
        if (changes result =? 0)%N then
          (res 404 (p_error "Evento no encontrado"), s)
        else
          match get id s with
          | (thrown, s) => (res 500 (p_error "Error al actualizar evento"), s)
          | (returned updated, s) => (res 200 (p_event updated), s)
          end
    end
  end.

(** [DELETE /api/events/:id] *)
Definition delete_events (id : N) (s : store) : response * store :=
  match delete id s with
  | (thrown, s) => (res 500 (p_error "Error al eliminar evento"), s)
  | (returned result, s) =>
      if (changes result =? 0)%N then
        (res 404 (p_error "Evento no encontrado"), s)
      else (res 200 p_success, s)
  end.

Arguments post_events : simpl never.
Arguments put_events : simpl never.

End NoAuth.

(** ** Vocabulary of the statements *)

(** A field is missing when it is absent, null or empty. *)
Definition present (f : field) : Prop := truthy f = true.
Definition missing (f : field) : Prop := truthy f = false.

(** [start <= date <= end_] *)
Definition within (start end_ : string) (e : Event.t) : Prop :=
  (start <=? Event.date e) = true /\ (Event.date e <=? end_) = true.

Definition withinb (start end_ : string) (e : Event.t) : bool :=
  (start <=? Event.date e) && (Event.date e <=? end_).

(** Earlier date, or same date and time not later. *)
Definition date_then_time (a b : Event.t) : Prop :=
  (Event.date a <? Event.date b) = true \/
  (Event.date a = Event.date b /\ (Event.time a <=? Event.time b) = true).

Definition ids (s : store) : list N := map Event.id (events s).

(** Ids and emails are keys; issued ids stay below the next one. *)
Record consistent (s : store) : Prop := {
  ids_unique : NoDup (ids s);
  ids_issued : forall e, In e (events s) -> (Event.id e < next_id s)%N;
  emails_unique : NoDup (map User.email (users s))
}.

(** The request is refused with [code] and the store, its log of calls
    included, is left as it was. *)
Definition rejected (code : N) (s : store) (out : response * store) : Prop :=
  exists msg, out = (res code (p_error msg), s).

(** The answer to a range query: status 200, one call to the store, and
    the rows in range, each once, by date then time. *)
Definition listed (start end_ : string) (s : store)
  (out : response * store) : Prop :=
  exists rows,
    out = (res 200 (p_events rows), log (SelectEvents start end_) s) /\
    Permutation rows (filter (withinb start end_) (events s)) /\
    (forall e, In e rows <-> In e (events s) /\ within start end_ e) /\
    StronglySorted date_then_time rows /\
    ((forall e, In e (events s) -> ~ within start end_ e) -> rows = []).

(** The sort key of a list: date, then time. *)
Definition sort_key (e : Event.t) : string * string :=
  (Event.date e, Event.time e).

(** Keys in order: earlier date, or same date and time not later. *)
Definition key_le (a b : string * string) : Prop :=
  (fst a <? fst b) = true \/ (fst a = fst b /\ (snd a <=? snd b) = true).

(** Two lists hold the same rows and agree, position by position, on
    date and time: they differ at most in the order of rows that have
    the same date and the same time. *)
Definition same_up_to_ties (rows1 rows2 : list Event.t) : Prop :=
  Permutation rows1 rows2 /\ map sort_key rows1 = map sort_key rows2.

(** The rows of a response that carries an array. *)
Definition listing (r : response) : option (list Event.t) :=
  match body r with
  | p_events rows => Some rows
  | _ => None
  end.

(** The columns written for a body; [blank] is what an optional field
    becomes when it is missing: [null] with Supabase, the empty string
    with SQLite. *)
Definition written (blank : field) (b : Body.t) : Fields.t :=
  {| Fields.date := text (Body.date b);
     Fields.time := text (Body.time b);
     Fields.title := text (Body.title b);
     Fields.channel := or_else (Body.channel b) blank;
     Fields.platform := or_else (Body.platform b) blank;
     Fields.notes := or_else (Body.notes b) blank |}.

(** The tables and the id counter are as before (the log may grow). *)
Definition same_data (s s' : store) : Prop :=
  events s' = events s /\ users s' = users s /\ next_id s' = next_id s.

(** A record was appended under the next id and is the body of a 201. *)
Definition created (blank : field) (by_ : option N) (b : Body.t) (s : store)
  (out : response * store) : Prop :=
  let row := Event.create (next_id s) (written blank b) (now s) by_ in
  fst out = res 201 (p_event (Some row)) /\
  events (snd out) = (events s ++ [row])%list /\
  ~ In (Event.id row) (ids s) /\
  consistent (snd out).

(** The record [old] took the written columns, the other records are as
    before, and the new record is the body of a 200. *)
Definition updated (blank : field) (b : Body.t) (s : store) (old : Event.t)
  (out : response * store) : Prop :=
  let row := Event.set (written blank b) old in
  fst out = res 200 (p_event (Some row)) /\
  events (snd out) =
    map (fun r => if (Event.id r =? Event.id old)%N then row else r)
      (events s) /\
  In row (events (snd out)) /\
  ids (snd out) = ids s.

(** [{ id, email, role }] of a stored user *)
Definition projection (user : User.t) : SessionUser.t :=
  {| SessionUser.id := User.id user;
     SessionUser.email := User.email user;
     SessionUser.role := User.role user |}.

(** The answer is 404 and no record was created, changed or removed. *)
Definition not_found (s : store) (out : response * store) : Prop :=
  exists msg, fst out = res 404 (p_error msg) /\ same_data s (snd out).

(** Fields read back as they were sent: the required ones always, the
    optional ones when they were sent with a non-empty value. *)
Definition kept (b : Body.t) (row : Event.t) : Prop :=
  Body.date b = Some (Event.date row) /\
  Body.time b = Some (Event.time row) /\
  Body.title b = Some (Event.title row) /\
  (present (Body.channel b) -> Event.channel row = Body.channel b) /\
  (present (Body.platform b) -> Event.platform row = Body.platform b) /\
  (present (Body.notes b) -> Event.notes row = Body.notes b).

(** Every optional field that was sent, empty or not, reads back as
    sent. *)
Definition kept_as_sent (b : Body.t) (row : Event.t) : Prop :=
  (Body.channel b <> None -> Event.channel row = Body.channel b) /\
  (Body.platform b <> None -> Event.platform row = Body.platform b) /\
  (Body.notes b <> None -> Event.notes row = Body.notes b).

(** Every optional field that was missing, be it absent, null or
    empty, reads back as [blank]. *)
Definition blanked (blank : field) (b : Body.t) (row : Event.t) : Prop :=
  (missing (Body.channel b) -> Event.channel row = blank) /\
  (missing (Body.platform b) -> Event.platform row = blank) /\
  (missing (Body.notes b) -> Event.notes row = blank).

(** The record answered by a create is among the rows answered by the
    list that follows it. *)
Definition read_back (create_out list_out : response * store)
  (keeps : Event.t -> Prop) : Prop :=
  exists row rows,
    fst create_out = res 201 (p_event (Some row)) /\
    fst list_out = res 200 (p_events rows) /\
    In row rows /\ keeps row.

(** The record with this id, and only it, was removed; the body is the
    success flag alone; no later list, over any range, shows the id. *)
Definition deleted (id : N) (s : store) (out : response * store) : Prop :=
  fst out = res 200 p_success /\
  to_json (body (fst out)) = JObj [("success", JBool true)] /\
  (exists old,
     In old (events s) /\ Event.id old = id /\
     Permutation (events s) (old :: events (snd out))) /\
  ~ In id (ids (snd out)) /\
  (forall (u : SessionUser.t) (q : Range.t) (rows : list Event.t),
     listing (fst (Auth.route_get_events (Some u) q (snd out))) = Some rows \/
     listing (fst (NoAuth.get_events q (snd out))) = Some rows ->
     ~ In id (map Event.id rows)).

(** What [POST /api/login] may answer when it does not answer with a
    user. *)
Definition login_errors : list string :=
  ["Email y contraseña son obligatorios."; "Error interno";
   "Credenciales inválidas"].

(** ** Sample data *)

Module Sample.
Definition ana : SessionUser.t :=
  {| SessionUser.id := 1; SessionUser.email := "ana@wfg.com";
     SessionUser.role := "admin" |}.

Definition leo : SessionUser.t :=
  {| SessionUser.id := 2; SessionUser.email := "leo@wfg.com";
     SessionUser.role := "user" |}.

Definition accounts : list User.t :=
  [ {| User.id := 1; User.email := "ana@wfg.com"; User.password := "s3cret";
       User.role := "admin"; User.active := true |};
    {| User.id := 2; User.email := "leo@wfg.com"; User.password := "hunter2";
       User.role := "user"; User.active := true |};
    {| User.id := 3; User.email := "old@wfg.com"; User.password := "gone";
       User.role := "user"; User.active := false |} ].

Definition reel : Event.t :=
  {| Event.id := 1; Event.date := "2024-06-03"; Event.time := "18:00";
     Event.title := "Reel"; Event.channel := Some "Reel";
     Event.platform := Some "Instagram"; Event.notes := None;
     Event.created_at := 10; Event.created_by := Some 1 |}.

Definition story : Event.t :=
  {| Event.id := 2; Event.date := "2024-06-01"; Event.time := "09:00";
     Event.title := "Historia"; Event.channel := Some "Historia";
     Event.platform := None; Event.notes := None;
     Event.created_at := 11; Event.created_by := Some 2 |}.

Definition july : Event.t :=
  {| Event.id := 3; Event.date := "2024-07-15"; Event.time := "12:30";
     Event.title := "TikTok"; Event.channel := None;
     Event.platform := Some "TikTok"; Event.notes := Some "verano";
     Event.created_at := 12; Event.created_by := Some 1 |}.

Definition accounts_rotated : list User.t :=
  [ {| User.id := 1; User.email := "ana@wfg.com"; User.password := "n3w";
       User.role := "admin"; User.active := false |};
    {| User.id := 2; User.email := "leo@wfg.com"; User.password := "";
       User.role := "user"; User.active := true |};
    {| User.id := 3; User.email := "old@wfg.com"; User.password := "gone";
       User.role := "user"; User.active := true |} ].

Definition db : store :=
  {| events := [reel; story; july]; users := accounts; next_id := 4;
     now := 20; faults := []; calls := [] |}.

Definition empty : store :=
  {| events := []; users := accounts; next_id := 1;
     now := 20; faults := []; calls := [] |}.

(** The rows of [db], read in another order. *)
Definition shuffled : store :=
  {| events := [july; reel; story]; users := accounts; next_id := 4;
     now := 20; faults := []; calls := [] |}.

(** Same date and time as [story]. *)
Definition twin : Event.t :=
  {| Event.id := 4; Event.date := "2024-06-01"; Event.time := "09:00";
     Event.title := "Reel"; Event.channel := None;
     Event.platform := Some "Instagram"; Event.notes := None;
     Event.created_at := 13; Event.created_by := Some 1 |}.

Definition tied : store :=
  {| events := [story; twin]; users := accounts; next_id := 5;
     now := 20; faults := []; calls := [] |}.

Definition tied_back : store :=
  {| events := [twin; story]; users := accounts; next_id := 5;
     now := 20; faults := []; calls := [] |}.

Definition rotated : store :=
  {| events := []; users := accounts_rotated; next_id := 1;
     now := 30; faults := []; calls := [] |}.

Definition ana_login : Credentials.t :=
  {| Credentials.email := Some "ana@wfg.com";
     Credentials.password := Some "s3cret" |}.

Definition ana_typo : Credentials.t :=
  {| Credentials.email := Some "ana@wfg.com";
     Credentials.password := Some "secret" |}.

Definition june : Range.t :=
  {| Range.start := Some "2024-06-01"; Range.end_ := Some "2024-06-30" |}.

Definition no_end : Range.t :=
  {| Range.start := Some "2024-06-01"; Range.end_ := None |}.

Definition launch : Body.t :=
  {| Body.date := Some "2024-06-01"; Body.time := Some "09:00";
     Body.title := Some "Launch post"; Body.channel := None;
     Body.platform := None; Body.notes := None |}.

Definition blank_channel : Body.t :=
  {| Body.date := Some "2024-06-01"; Body.time := Some "09:00";
     Body.title := Some "Launch post"; Body.channel := Some "";
     Body.platform := Some "Instagram"; Body.notes := Some "borrador" |}.

Definition untitled : Body.t :=
  {| Body.date := Some "2024-06-01"; Body.time := Some "09:00";
     Body.title := Some ""; Body.channel := None;
     Body.platform := None; Body.notes := None |}.
End Sample.

(** ** Vocabulary of the further statements *)

(** The call after the next one fails. *)
Definition fails_next (s : store) : bool := hd false (tl (faults s)).

(** The answer is 500 and the tables are as before. *)
Definition failed (s : store) (out : response * store) : Prop :=
  exists msg, fst out = res 500 (p_error msg) /\ same_data s (snd out).

(** The status is one of [codes], and the body is [{ error }] exactly
    when the status is 400 or more. *)
Definition shaped (codes : list N) (r : response) : Prop :=
  In (status r) codes /\
  ((400 <= status r)%N <-> exists msg, body r = p_error msg).

(** The columns of a row, as a client would write them. *)
Definition fields_of (e : Event.t) : Fields.t :=
  {| Fields.date := Event.date e; Fields.time := Event.time e;
     Fields.title := Event.title e; Fields.channel := Event.channel e;
     Fields.platform := Event.platform e; Fields.notes := Event.notes e |}.

(** Required columns are not empty. *)
Definition filled (v : Fields.t) : Prop :=
  Fields.date v <> "" /\ Fields.time v <> "" /\ Fields.title v <> "".

(** What the Supabase variant writes: no optional column is the empty
    string. *)
Definition blank_is_null (v : Fields.t) : Prop :=
  filled v /\ Fields.channel v <> Some "" /\ Fields.platform v <> Some "" /\
  Fields.notes v <> Some "".

(** What the SQLite variant writes: no optional column is null. *)
Definition null_is_blank (v : Fields.t) : Prop :=
  filled v /\ Fields.channel v <> None /\ Fields.platform v <> None /\
  Fields.notes v <> None.

(** Every stored row satisfies [ok]. *)
Definition rows_are (ok : Fields.t -> Prop) (s : store) : Prop :=
  forall e, In e (events s) -> ok (fields_of e).

(** One call to the store, as seen on the store: a call is logged and
    then nothing else happens, or a row with accepted columns is appended
    under the next id, or the selected rows take accepted columns, or the
    selected rows go. *)
Inductive change (ok : Fields.t -> Prop) (s : store) : store -> Prop :=
| asked (c : call) : change ok s (log c s)
| inserted (c : call) (v : Fields.t) (by_ : option N) :
    ok v ->
    change ok s
      (bump_id
         (with_events
            (events s ++ [Event.create (next_id s) v (now s) by_])
            (log c s)))
| rewritten (c : call) (hit : Event.t -> bool) (v : Fields.t) :
    ok v ->
    change ok s
      (with_events
         (map (fun r => if hit r then Event.set v r else r) (events s))
         (log c s))
| erased (c : call) (hit : Event.t -> bool) :
    change ok s
      (with_events (filter (fun r => negb (hit r)) (events s)) (log c s)).

(** What a request does to the store: a sequence of calls. *)
Inductive effect (ok : Fields.t -> Prop) (s : store) : store -> Prop :=
| untouched : effect ok s s
| and_then (s1 s2 : store) :
    effect ok s s1 -> change ok s1 s2 -> effect ok s s2.

(** ** More sample data *)

Module Fixture.
Definition retitle : Body.t :=
  {| Body.date := Some "2024-06-10"; Body.time := Some "10:15";
     Body.title := Some "Reel nuevo"; Body.channel := Some "";
     Body.platform := Some "Instagram"; Body.notes := None |}.

Definition backwards : Range.t :=
  {| Range.start := Some "2024-06-30"; Range.end_ := Some "2024-06-01" |}.

Definition down : store :=
  {| events := [Sample.reel; Sample.story; Sample.july];
     users := Sample.accounts; next_id := 4;
     now := 20; faults := [true]; calls := [] |}.

(** The next call is answered, the one after it fails. *)
Definition flaky : store :=
  {| events := [Sample.reel; Sample.story; Sample.july];
     users := Sample.accounts; next_id := 4;
     now := 20; faults := [false; true]; calls := [] |}.

Definition no_password : Credentials.t :=
  {| Credentials.email := Some "ana@wfg.com";
     Credentials.password := Some "" |}.

Definition leo_login : Credentials.t :=
  {| Credentials.email := Some "leo@wfg.com";
     Credentials.password := Some "hunter2" |}.
End Fixture.

(** ** The routers

    The routes each [server.js] registers, and sequences of requests
    against them.  In the Supabase variant every client has its own
    session, found through its cookie; a client is a number here. *)

Module Router.

Inductive request : Type :=
| Login (c : Credentials.t)            (* POST /api/login *)
| Logout                               (* POST /api/logout *)
| List (q : Range.t)                   (* GET /api/events *)
| Create (b : Body.t)                  (* POST /api/events *)
| Update (id : N) (b : Body.t)         (* PUT /api/events/:id *)
| Delete (id : N).                     (* DELETE /api/events/:id *)

(** The routes of the SQLite variant. *)
Inductive open_request : Type :=
| OList (q : Range.t)
| OCreate (body : option Body.t)
| OUpdate (id : N) (body : option Body.t)
| ODelete (id : N).

Definition sessions := N -> Auth.session.

Definition nobody : sessions := fun _ => None.

Definition set_session (client : N) (sess : Auth.session) (all : sessions)
  : sessions :=
  fun k => if (k =? client)%N then sess else all k.

(** One request of one client to the Supabase variant. *)
Definition auth (client : N) (r : request) (all : sessions) (s : store)
  : response * sessions * store :=
  let sess := all client in
  match r with
  | Login c =>
      let '(a, sess', s') := Auth.post_login c sess s in
      (a, set_session client sess' all, s')
  | Logout =>
      let '(a, sess', s') := Auth.post_logout sess s in
      (a, set_session client sess' all, s')
  | List q =>
      let '(a, s') := Auth.route_get_events sess q s in (a, all, s')
  | Create b =>
      let '(a, s') := Auth.route_post_events sess b s in (a, all, s')
  | Update id b =>
      let '(a, s') := Auth.route_put_events sess id b s in (a, all, s')
  | Delete id =>
      let '(a, s') := Auth.route_delete_events sess id s in (a, all, s')
  end.

(** One request to the SQLite variant. *)
Definition open (r : open_request) (s : store) : response * store :=
  match r with
  | OList q => NoAuth.get_events q s
  | OCreate body => NoAuth.post_events body s
  | OUpdate id body => NoAuth.put_events id body s
  | ODelete id => NoAuth.delete_events id s
  end.

(** Requests served one after the other. *)
Fixpoint run_auth (rs : list (N * request)) (all : sessions) (s : store)
  : list response * sessions * store :=
  match rs with
  | [] => ([], all, s)
  | (client, r) :: rs' =>
      let '(a, all1, s1) := auth client r all s in
      let '(l, all2, s2) := run_auth rs' all1 s1 in
      (a :: l, all2, s2)
  end.

Fixpoint run_open (rs : list open_request) (s : store)
  : list response * store :=
  match rs with
  | [] => ([], s)
  | r :: rs' =>
      let '(a, s1) := open r s in
      let '(l, s2) := run_open rs' s1 in
      (a :: l, s2)
  end.

End Router.

(** Every session belongs to an active stored user that is not an
    admin. *)
Definition no_admin_session (us : list User.t) (all : Router.sessions)
  : Prop :=
  forall k u, all k = Some u ->
    exists user,
      In user us /\ User.active user = true /\ u = projection user /\
      User.role user <> "admin".

(** Keys are in order and the rows are as the variant writes them. *)
Definition sound (ok : Fields.t -> Prop) (s : store) : Prop :=
  consistent s /\ rows_are ok s.

(** Sample traffic *)
Definition busy_day : list (N * Router.request) :=
  [ (7, Router.Login Fixture.leo_login);
    (7, Router.Create Sample.launch);
    (7, Router.Delete 1);
    (8, Router.Delete 2);
    (7, Router.Update 2 Fixture.retitle);
    (7, Router.Logout);
    (7, Router.List Sample.june) ]%N.

Definition staff_only : store :=
  {| events := [Sample.reel; Sample.story; Sample.july];
     users := [ {| User.id := 2; User.email := "leo@wfg.com";
                   User.password := "hunter2"; User.role := "user";
                   User.active := true |};
                {| User.id := 1; User.email := "ana@wfg.com";
                   User.password := "s3cret"; User.role := "admin";
                   User.active := false |} ];
     next_id := 4; now := 20; faults := []; calls := [] |}.

Definition open_day : list Router.open_request :=
  [ Router.OCreate (Some Sample.launch);
    Router.OUpdate 1 (Some Fixture.retitle);
    Router.OUpdate 1 None;
    Router.ODelete 1;
    Router.OCreate (Some Sample.untitled);
    Router.OCreate None;
    Router.OList Sample.june ].

(** * Properties *)

(** ** A store that answers *)

Lemma answering_from (s x : store) (n : nat) :
  failing s = false -> faults x = Nat.iter n (@tl bool) (faults s) ->
  fails x = false /\ failing x = false.
Proof.
  unfold failing, fails. intros Hs ->.
  assert (H : existsb (fun down => down)
                (Nat.iter n (@tl bool) (faults s)) = false).
  { induction n as [|n IH]; simpl; [exact Hs|].
    destruct (Nat.iter n (@tl bool) (faults s)) as [|down l];
      [reflexivity|].
    simpl in IH. apply orb_false_iff in IH. apply IH. }
  split; [|exact H].
  destruct (Nat.iter n (@tl bool) (faults s)) as [|down l]; [reflexivity|].
  simpl in H. apply orb_false_iff in H. apply H.
Qed.

(** Every call made after [n] calls on a store that answers is
    answered. *)
Ltac answers Hf :=
  repeat match goal with
  | |- context [fails ?x] =>
      first
        [ rewrite (proj1 (@answering_from _ x 0 Hf eq_refl))
        | rewrite (proj1 (@answering_from _ x 1 Hf eq_refl))
        | rewrite (proj1 (@answering_from _ x 2 Hf eq_refl)) ]
  end.

Ltac answering Hf :=
  first
    [ exact Hf
    | refine (proj2 (@answering_from _ _ 1 Hf _)); reflexivity
    | refine (proj2 (@answering_from _ _ 2 Hf _)); reflexivity
    | refine (proj2 (@answering_from _ _ 3 Hf _)); reflexivity ].

Ltac answered Hf :=
  first
    [ refine (proj1 (@answering_from _ _ 0 Hf _)); reflexivity
    | refine (proj1 (@answering_from _ _ 1 Hf _)); reflexivity
    | refine (proj1 (@answering_from _ _ 2 Hf _)); reflexivity
    | refine (proj1 (@answering_from _ _ 3 Hf _)); reflexivity ].

Lemma answering_now (s : store) : failing s = false -> fails s = false.
Proof. intros Hf. answered Hf. Qed.

(** ** Byte-wise order on text *)

Section TextOrder.

Lemma ascii_compare_refl (c : ascii) : Ascii.compare c c = Eq.
Proof. unfold Ascii.compare. apply N.compare_refl. Qed.

Lemma ascii_compare_lt_trans (a b c : ascii) :
  Ascii.compare a b = Lt -> Ascii.compare b c = Lt -> Ascii.compare a c = Lt.
Proof.
  unfold Ascii.compare. rewrite !N.compare_lt_iff. apply N.lt_trans.
Qed.

Lemma compare_refl (x : string) : (x ?= x) = Eq.
Proof.
  induction x as [|c x IH]; simpl; [reflexivity|].
  now rewrite ascii_compare_refl.
Qed.

Lemma compare_lt_trans :
  forall x y z : string, (x ?= y) = Lt -> (y ?= z) = Lt -> (x ?= z) = Lt.
Proof.
  induction x as [|a x IH]; intros [|b y] [|c z]; simpl;
    try discriminate; auto.
  destruct (Ascii.compare a b) eqn:Eab; try discriminate;
    destruct (Ascii.compare b c) eqn:Ebc; try discriminate; intros Hxy Hyz.
  - apply Ascii.compare_eq_iff in Eab, Ebc. subst.
    rewrite ascii_compare_refl. now apply IH with y.
  - apply Ascii.compare_eq_iff in Eab. subst. now rewrite Ebc.
  - apply Ascii.compare_eq_iff in Ebc. subst. now rewrite Eab.
  - now rewrite (ascii_compare_lt_trans _ _ _ Eab Ebc).
Qed.

Lemma ltb_lt (x y : string) : (x <? y) = true <-> (x ?= y) = Lt.
Proof. unfold String.ltb. destruct (x ?= y); easy. Qed.

Lemma leb_le (x y : string) : (x <=? y) = true <-> (x ?= y) = Lt \/ x = y.
Proof.
  unfold String.leb. destruct (x ?= y) eqn:E; split; intros H; auto.
  - right. now apply String.compare_eq_iff.
  - discriminate.
  - destruct H as [H|H]; [discriminate|]. subst.
    now rewrite compare_refl in E.
Qed.

Lemma leb_refl (x : string) : (x <=? x) = true.
Proof. apply leb_le. now right. Qed.

Lemma leb_trans (x y z : string) :
  (x <=? y) = true -> (y <=? z) = true -> (x <=? z) = true.
Proof.
  rewrite !leb_le. intros [Hxy | ->] [Hyz | <-]; auto.
  left. eapply compare_lt_trans; eauto.
Qed.

Lemma ltb_leb_trans (x y z : string) :
  (x <? y) = true -> (y <=? z) = true -> (x <? z) = true.
Proof.
  rewrite !ltb_lt, leb_le. intros Hxy [Hyz | <-]; auto.
  eapply compare_lt_trans; eauto.
Qed.

Lemma ltb_neq (x y : string) : (x <? y) = true -> x <> y.
Proof.
  rewrite ltb_lt. intros H ->. now rewrite compare_refl in H.
Qed.

End TextOrder.

(** ** The stable sort *)

Section OrderByFacts.
Variable R : Type.
Variable le : R -> R -> bool.

Lemma place_perm (x : R) (l : list R) : Permutation (place le x l) (x :: l).
Proof.
  induction l as [|y l IH]; simpl; [reflexivity|].
  destruct (le x y); [reflexivity|].
  rewrite IH. apply perm_swap.
Qed.

Lemma order_by_perm (l : list R) : Permutation (order_by le l) l.
Proof.
  induction l as [|x l IH]; simpl; [reflexivity|].
  rewrite place_perm. now apply perm_skip.
Qed.

Lemma order_by_In (l : list R) (x : R) : In x (order_by le l) <-> In x l.
Proof.
  split; apply Permutation_in;
    [apply order_by_perm | symmetry; apply order_by_perm].
Qed.

Lemma order_by_sorted_id (l : list R) :
  Sorted (fun a b => le a b = true) l -> order_by le l = l.
Proof.
  induction 1 as [|x l Hl IH Hx]; simpl; [reflexivity|].
  rewrite IH. destruct Hx as [|y l' Hxy]; simpl; [reflexivity|].
  now rewrite Hxy.
Qed.

Hypothesis le_total : forall a b, le a b = false -> le b a = true.

Lemma place_sorted (x : R) (l : list R) :
  Sorted (fun a b => le a b = true) l ->
  Sorted (fun a b => le a b = true) (place le x l).
Proof.
  induction 1 as [|y l Hl IH Hy]; simpl.
  - repeat constructor.
  - destruct (le x y) eqn:E.
    + repeat constructor; assumption.
    + constructor; [assumption|].
      destruct Hy as [|z l Hz]; simpl.
      * constructor. now apply le_total.
      * destruct (le x z); constructor; auto.
Qed.

Lemma order_by_sorted (l : list R) :
  Sorted (fun a b => le a b = true) (order_by le l).
Proof.
  induction l as [|x l IH]; simpl; [constructor|].
  now apply place_sorted.
Qed.

End OrderByFacts.

Lemma order_by_ext (R : Type) (le1 le2 : R -> R -> bool) :
  (forall a b, le1 a b = le2 a b) ->
  forall l, order_by le1 l = order_by le2 l.
Proof.
  intros H l. induction l as [|x l IH]; simpl; [reflexivity|].
  rewrite IH. generalize (order_by le2 l). intros m.
  induction m as [|y m IHm]; simpl; [reflexivity|].
  now rewrite H, IHm.
Qed.

(** ** Lists *)

Lemma filter_split (R : Type) (f : R -> bool) (l : list R) :
  Permutation l (filter f l ++ filter (fun r => negb (f r)) l).
Proof.
  induction l as [|x l IH]; simpl; [constructor|].
  destruct (f x); simpl.
  - now constructor.
  - now apply Permutation_cons_app.
Qed.

Lemma filter_all (R : Type) (f : R -> bool) (l : list R) :
  (forall x, In x l -> f x = true) -> filter f l = l.
Proof.
  induction l as [|x l IH]; simpl; intros H; [reflexivity|].
  rewrite (H x (or_introl eq_refl)). f_equal. apply IH. auto.
Qed.

Lemma filter_none (R : Type) (f : R -> bool) (l : list R) :
  (forall x, In x l -> f x = false) -> filter f l = [].
Proof.
  induction l as [|x l IH]; simpl; intros H; [reflexivity|].
  rewrite (H x (or_introl eq_refl)). apply IH. auto.
Qed.

Lemma filter_perm (R : Type) (f : R -> bool) (l l' : list R) :
  Permutation l l' -> Permutation (filter f l) (filter f l').
Proof.
  induction 1 as [|x l l' HP IH|x y l|l l' l'' HP1 IH1 HP2 IH2]; simpl.
  - constructor.
  - destruct (f x); [now constructor|assumption].
  - destruct (f x), (f y); try reflexivity. apply perm_swap.
  - now transitivity (filter f l').
Qed.

Section SortedOnce.
Variable A : Type.
Variable le : A -> A -> Prop.
Hypothesis le_antisym : forall a b, le a b -> le b a -> a = b.

(** A list has one sorted arrangement when the order is antisymmetric. *)
Lemma sorted_perm_eq (l1 l2 : list A) :
  StronglySorted le l1 -> StronglySorted le l2 -> Permutation l1 l2 ->
  l1 = l2.
Proof.
  intros H1. revert l2. induction H1 as [|x l1 Hl1 IH Hx]; intros l2 H2 HP.
  - now apply Permutation_nil in HP.
  - destruct H2 as [|y l2 Hl2 Hy].
    + apply Permutation_sym in HP. now apply Permutation_nil in HP.
    + assert (E : x = y).
      { assert (Hxin : In x (y :: l2))
          by (apply (Permutation_in _ HP); now left).
        assert (Hyin : In y (x :: l1))
          by (apply (Permutation_in _ (Permutation_sym HP)); now left).
        destruct Hxin as [Hxy|Hxin]; [now symmetry|].
        destruct Hyin as [Hyx|Hyin]; [assumption|].
        rewrite Forall_forall in Hx, Hy.
        apply le_antisym; auto. }
      subst y. f_equal. apply IH; [assumption|].
      now apply Permutation_cons_inv in HP.
Qed.
End SortedOnce.

(** ** Range queries *)

Lemma by_date_time_total (a b : Event.t) :
  Sqlite.by_date_time a b = false -> Sqlite.by_date_time b a = true.
Proof.
  unfold Sqlite.by_date_time, String.ltb.
  rewrite (String.compare_antisym (Event.date b) (Event.date a)).
  destruct (Event.date a ?= Event.date b) eqn:E; simpl; try discriminate.
  - apply String.compare_eq_iff in E. rewrite E, String.eqb_refl. simpl.
    intros H. destruct (String.leb_total (Event.time a) (Event.time b));
      congruence.
  - reflexivity.
Qed.

Lemma by_date_time_iff (a b : Event.t) :
  Sqlite.by_date_time a b = true <-> date_then_time a b.
Proof.
  unfold Sqlite.by_date_time, date_then_time.
  rewrite orb_true_iff, andb_true_iff, String.eqb_eq. tauto.
Qed.

Lemma date_then_time_trans (a b c : Event.t) :
  date_then_time a b -> date_then_time b c -> date_then_time a c.
Proof.
  unfold date_then_time. intros [Hab|[Eab Tab]] [Hbc|[Ebc Tbc]].
  - left. rewrite ltb_lt in *. eapply compare_lt_trans; eauto.
  - left. now rewrite <- Ebc.
  - left. now rewrite Eab.
  - right. split; [congruence|]. eapply leb_trans; eauto.
Qed.

Lemma withinb_iff (start end_ : string) (e : Event.t) :
  withinb start end_ e = true <-> within start end_ e.
Proof. unfold withinb, within. now rewrite andb_true_iff. Qed.

Lemma Sorted_impl (A : Type) (P Q : A -> A -> Prop) (l : list A) :
  (forall a b, P a b -> Q a b) -> Sorted P l -> Sorted Q l.
Proof.
  intros H. induction 1 as [|x l Hl IH Hx]; constructor; auto.
  destruct Hx; constructor; auto.
Qed.

(** What [WHERE date >= ? AND date <= ? ORDER BY date ASC, time ASC]
    returns. *)
Lemma range_rows (start end_ : string) (table : list Event.t) :
  let rows :=
    order_by Sqlite.by_date_time (filter (Sqlite.in_range start end_) table) in
  Permutation rows (filter (withinb start end_) table) /\
  (forall e, In e rows <-> In e table /\ within start end_ e) /\
  StronglySorted date_then_time rows /\
  ((forall e, In e table -> ~ within start end_ e) -> rows = []).
Proof.
  intros rows. subst rows.
  assert (HIn : forall e,
    In e (order_by Sqlite.by_date_time
            (filter (Sqlite.in_range start end_) table)) <->
    In e table /\ within start end_ e).
  { intros e. rewrite order_by_In, filter_In.
    change (Sqlite.in_range start end_ e) with (withinb start end_ e).
    now rewrite withinb_iff. }
  split; [|split; [|split]].
  - apply order_by_perm.
  - exact HIn.
  - apply Sorted_StronglySorted.
    + intros a b c. apply date_then_time_trans.
    + apply Sorted_impl with (P := fun a b => Sqlite.by_date_time a b = true).
      * intros a b. apply by_date_time_iff.
      * apply order_by_sorted. apply by_date_time_total.
  - intros Hnone.
    destruct (order_by Sqlite.by_date_time
                (filter (Sqlite.in_range start end_) table)) as [|e l] eqn:E;
      [reflexivity|].
    exfalso. destruct (proj1 (HIn e) (or_introl eq_refl)) as [He Hw].
    exact (Hnone e He Hw).
Qed.

(** The chain [.gte("date", start).lte("date", end).order("date")
    .order("time")] selects and orders as the SQL statement does. *)
Lemma builder_range_rows (start end_ : string) (table : list Event.t) :
  Supabase.rows_of
    (Supabase.from _ |> Supabase.gte Event.date start
                     |> Supabase.lte Event.date end_
                     |> Supabase.order Event.date true
                     |> Supabase.order Event.time true) table =
  order_by Sqlite.by_date_time (filter (Sqlite.in_range start end_) table).
Proof.
  unfold Supabase.rows_of. simpl.
  rewrite (filter_ext _ (Sqlite.in_range start end_)).
  - apply order_by_ext. intros a b.
    unfold Sqlite.by_date_time, String.ltb, String.leb. simpl.
    destruct (Event.date a ?= Event.date b) eqn:E; simpl.
    + apply String.compare_eq_iff in E. rewrite E, String.eqb_refl.
      now destruct (Event.time a ?= Event.time b).
    + reflexivity.
    + destruct (Event.date a =? Event.date b) eqn:E'; [|reflexivity].
      apply String.eqb_eq in E'. rewrite E', compare_refl in E. discriminate.
  - intros r. unfold Supabase.matches, Sqlite.in_range. simpl.
    now rewrite andb_true_r.
Qed.

(** ** [GET /api/events] *)

Lemma auth_get_events_ok (q : Range.t) (s : store) :
  present (Range.start q) -> present (Range.end_ q) -> failing s = false ->
  Auth.get_events q s =
  (res 200
     (p_events
        (order_by Sqlite.by_date_time
           (filter (Sqlite.in_range (text (Range.start q)) (text (Range.end_ q)))
              (events s)))),
   log (SelectEvents (text (Range.start q)) (text (Range.end_ q))) s).
Proof.
  unfold present, Auth.get_events, Supabase.select_events.
  intros -> -> Hf. simpl. answers Hf. simpl.
  now rewrite <- builder_range_rows.
Qed.

Lemma noauth_get_events_ok (q : Range.t) (s : store) :
  present (Range.start q) -> present (Range.end_ q) -> failing s = false ->
  NoAuth.get_events q s =
  (res 200
     (p_events
        (order_by Sqlite.by_date_time
           (filter (Sqlite.in_range (text (Range.start q)) (text (Range.end_ q)))
              (events s)))),
   log (SelectEvents (text (Range.start q)) (text (Range.end_ q))) s).
Proof.
  unfold present, NoAuth.get_events, Sqlite.all_in_range.
  intros -> -> Hf. simpl. answers Hf; reflexivity.
Qed.

Lemma missing_bound (q : Range.t) :
  missing (Range.start q) \/ missing (Range.end_ q) ->
  negb (truthy (Range.start q)) || negb (truthy (Range.end_ q)) = true.
Proof.
  unfold missing. intros [-> | ->]; simpl; [reflexivity|apply orb_true_r].
Qed.

Lemma list_rows_of_route (u : SessionUser.t) (q : Range.t) (s : store) :
  present (Range.start q) -> present (Range.end_ q) -> failing s = false ->
  listed (text (Range.start q)) (text (Range.end_ q)) s
    (Auth.route_get_events (Some u) q s) /\
  listed (text (Range.start q)) (text (Range.end_ q)) s
    (NoAuth.get_events q s).
Proof.
  intros Hs He Hf.
  unfold Auth.route_get_events, Auth.requireAuth.
  rewrite auth_get_events_ok, noauth_get_events_ok by assumption.
  split; eexists; (split; [reflexivity|apply range_rows]).
Qed.

(** C1. A range query with both bounds given answers 200 with exactly
    the stored events whose date lies in [start, end], both ends
    included, ordered by date and then by time; when no event is in range
    the answer is the empty array, still with status 200.  When a bound
    is missing the answer is 400 and the store receives no call.  Holds
    for the Supabase route (session present) and for the SQLite route. *)
Theorem list_events_in_range :
  forall (u : SessionUser.t) (q : Range.t) (s : store),
    (present (Range.start q) -> present (Range.end_ q) -> failing s = false ->
     listed (text (Range.start q)) (text (Range.end_ q)) s
       (Auth.route_get_events (Some u) q s) /\
     listed (text (Range.start q)) (text (Range.end_ q)) s
       (NoAuth.get_events q s)) /\
    (missing (Range.start q) \/ missing (Range.end_ q) ->
     rejected 400 s (Auth.route_get_events (Some u) q s) /\
     rejected 400 s (NoAuth.get_events q s)).
Proof.
  intros u q s. split.
  - now apply list_rows_of_route.
  - intros Hm. apply missing_bound in Hm.
    unfold Auth.route_get_events, Auth.requireAuth, Auth.get_events,
      NoAuth.get_events, rejected.
    rewrite Hm. split; eexists; reflexivity.
Qed.

Lemma list_events_in_range_witness :
  (listed "2024-06-01" "2024-06-30" Sample.db
     (Auth.route_get_events (Some Sample.leo) Sample.june Sample.db) /\
   listed "2024-06-01" "2024-06-30" Sample.db
     (NoAuth.get_events Sample.june Sample.db)) /\
  (rejected 400 Sample.db
     (Auth.route_get_events (Some Sample.leo) Sample.no_end Sample.db) /\
   rejected 400 Sample.db (NoAuth.get_events Sample.no_end Sample.db)).
Proof.
  split.
  - apply (proj1 (list_events_in_range Sample.leo Sample.june Sample.db));
      reflexivity.
  - apply (proj2 (list_events_in_range Sample.leo Sample.no_end Sample.db)).
    right. reflexivity.
Defined.

Lemma key_le_antisym (a b : string * string) :
  key_le a b -> key_le b a -> a = b.
Proof.
  destruct a as [d1 t1], b as [d2 t2]. unfold key_le. simpl.
  intros [H1|[E1 T1]] [H2|[E2 T2]].
  - rewrite ltb_lt in H1, H2.
    pose proof (compare_lt_trans _ _ _ H1 H2) as H.
    now rewrite compare_refl in H.
  - apply ltb_neq in H1. congruence.
  - apply ltb_neq in H2. congruence.
  - f_equal; [assumption|]. now apply String.leb_antisym.
Qed.

Lemma sorted_keys (rows : list Event.t) :
  StronglySorted date_then_time rows ->
  StronglySorted key_le (map sort_key rows).
Proof.
  induction 1 as [|x l Hl IH Hx]; simpl; constructor; [assumption|].
  apply Forall_forall. intros k Hk.
  apply in_map_iff in Hk. destruct Hk as (e & <- & He).
  rewrite Forall_forall in Hx. exact (Hx e He).
Qed.

(** Two arrangements by date and time of the same rows differ at most
    where rows tie. *)
Lemma sorted_same_keys (rows1 rows2 : list Event.t) :
  StronglySorted date_then_time rows1 ->
  StronglySorted date_then_time rows2 ->
  Permutation rows1 rows2 -> same_up_to_ties rows1 rows2.
Proof.
  intros H1 H2 HP. split; [exact HP|].
  apply (sorted_perm_eq key_le_antisym).
  - now apply sorted_keys.
  - now apply sorted_keys.
  - now apply Permutation_map.
Qed.

Lemma same_keys_distinct (rows1 rows2 : list Event.t) :
  same_up_to_ties rows1 rows2 -> NoDup (map sort_key rows1) ->
  rows1 = rows2.
Proof.
  intros [HP HK]. revert rows2 HP HK.
  induction rows1 as [|x l1 IH]; intros [|y l2] HP HK HN;
    try discriminate; [reflexivity|].
  simpl in HK.
  assert (Hxy : sort_key x = sort_key y) by congruence.
  assert (HK' : map sort_key l1 = map sort_key l2) by congruence.
  inversion HN as [|k ks Hnot Hnd]; subst.
  assert (E : x = y).
  { assert (Hin : In x (y :: l2)) by (apply (Permutation_in _ HP); now left).
    destruct Hin as [Hin|Hin]; [now symmetry|].
    exfalso. apply Hnot. rewrite HK'. now apply in_map. }
  subst y. f_equal. apply IH; [|assumption|assumption].
  now apply Permutation_cons_inv in HP.
Qed.

(** The order of rows with the same date and time is as free in the
    model as in the code: whatever arrangement by date and time of the
    rows in range an engine may return, both handlers return it on some
    table that holds the same rows. *)
Lemma tie_order_is_free (u : SessionUser.t) (q : Range.t) (s : store)
  (rows : list Event.t) :
  present (Range.start q) -> present (Range.end_ q) -> failing s = false ->
  Permutation rows
    (filter (withinb (text (Range.start q)) (text (Range.end_ q)))
       (events s)) ->
  StronglySorted date_then_time rows ->
  exists table,
    Permutation table (events s) /\
    listing (fst (Auth.route_get_events (Some u) q (with_events table s))) =
      Some rows /\
    listing (fst (NoAuth.get_events q (with_events table s))) = Some rows.
Proof.
  intros Hs He Hf HP Hsorted.
  set (start := text (Range.start q)) in *.
  set (end_ := text (Range.end_ q)) in *.
  set (rest := filter (fun r => negb (withinb start end_ r)) (events s)).
  assert (Hin : forall e, In e rows -> withinb start end_ e = true).
  { intros e H. apply (Permutation_in _ HP) in H.
    now apply filter_In in H. }
  assert (Hrows :
    order_by Sqlite.by_date_time
      (filter (Sqlite.in_range start end_) (rows ++ rest)%list) = rows).
  { change (Sqlite.in_range start end_) with (withinb start end_).
    rewrite filter_app, (filter_all _ _ Hin), filter_none, app_nil_r.
    - apply order_by_sorted_id. apply StronglySorted_Sorted in Hsorted.
      apply Sorted_impl with (P := date_then_time); [|assumption].
      intros a b. apply by_date_time_iff.
    - intros e H. subst rest. apply filter_In in H.
      now apply negb_true_iff. }
  exists (rows ++ rest)%list. split.
  - transitivity (filter (withinb start end_) (events s) ++ rest)%list.
    + now apply Permutation_app_tail.
    + symmetry. apply filter_split.
  - assert (Hf' : failing (with_events (rows ++ rest)%list s) = false)
      by exact Hf.
    unfold Auth.route_get_events, Auth.requireAuth.
    rewrite auth_get_events_ok, noauth_get_events_ok by assumption.
    simpl. fold start end_. now rewrite Hrows.
Qed.

(** C8 (as amended). On two stores that hold the same events and both
    answer, and for the same [start] and [end], the Supabase handler and
    the SQLite handler answer with the same status, 400 when a bound is
    missing and 200 otherwise.  With 200, each lists exactly the stored
    events whose date lies in [start, end], both ends included, by date
    and then time; the two lists hold the same rows and agree on date and
    time position by position, so they differ at most in the order of
    events that have the same date and the same time, and they are equal
    when no two listed events have the same date and time. *)
Theorem list_variants_agree :
  forall (u : SessionUser.t) (q : Range.t) (s1 s2 : store),
    Permutation (events s1) (events s2) ->
    failing s1 = false -> failing s2 = false ->
    let a := fst (Auth.route_get_events (Some u) q s1) in
    let b := fst (NoAuth.get_events q s2) in
    status a = status b /\
    status a = (if truthy (Range.start q) && truthy (Range.end_ q)
                then 200 else 400)%N /\
    (present (Range.start q) -> present (Range.end_ q) ->
     exists rows1 rows2,
       body a = p_events rows1 /\ body b = p_events rows2 /\
       (forall e, In e rows1 <->
                  In e (events s1) /\
                  within (text (Range.start q)) (text (Range.end_ q)) e) /\
       (forall e, In e rows2 <->
                  In e (events s1) /\
                  within (text (Range.start q)) (text (Range.end_ q)) e) /\
       StronglySorted date_then_time rows1 /\
       StronglySorted date_then_time rows2 /\
       same_up_to_ties rows1 rows2 /\
       (NoDup (map sort_key rows1) -> rows1 = rows2)).
Proof.
  intros u q s1 s2 Hev Hf1 Hf2. cbv zeta.
  change (Auth.route_get_events (Some u) q s1) with (Auth.get_events q s1).
  destruct (truthy (Range.start q)) eqn:Hs;
    [destruct (truthy (Range.end_ q)) eqn:He|].
  - destruct (proj1 (@list_rows_of_route u q s1 Hs He Hf1))
      as (rows1 & E1 & P1 & In1 & S1 & _).
    destruct (proj2 (@list_rows_of_route u q s2 Hs He Hf2))
      as (rows2 & E2 & P2 & In2 & S2 & _).
    change (Auth.route_get_events (Some u) q s1) with (Auth.get_events q s1)
      in E1.
    rewrite E1, E2. simpl.
    split; [reflexivity|]. split; [reflexivity|].
    intros _ _. exists rows1, rows2.
    assert (HP : Permutation rows1 rows2).
    { rewrite P1, P2. now apply filter_perm. }
    assert (Hsame : same_up_to_ties rows1 rows2)
      by now apply sorted_same_keys.
    repeat match goal with |- _ /\ _ => split end;
      try reflexivity; try assumption.
    + intros e. rewrite In2. split; intros [H Hw]; (split; [|exact Hw]).
      * exact (Permutation_in _ (Permutation_sym Hev) H).
      * exact (Permutation_in _ Hev H).
    + now apply same_keys_distinct.
  - unfold Auth.get_events, NoAuth.get_events. rewrite Hs, He. simpl.
    split; [reflexivity|]. split; [reflexivity|].
    unfold present. congruence.
  - unfold Auth.get_events, NoAuth.get_events. rewrite Hs. simpl.
    split; [reflexivity|]. split; [reflexivity|].
    unfold present. congruence.
Qed.

Lemma list_variants_agree_witness :
  Permutation (events Sample.db) (events Sample.shuffled) /\
  status (fst (Auth.route_get_events (Some Sample.ana) Sample.june Sample.db))
    = 200%N /\
  exists rows,
    listing (fst (Auth.route_get_events (Some Sample.ana) Sample.june
                    Sample.db)) = Some rows /\
    listing (fst (NoAuth.get_events Sample.june Sample.shuffled)) = Some rows.
Proof.
  assert (HP : Permutation (events Sample.db) (events Sample.shuffled)).
  { simpl. apply Permutation_sym.
    apply (Permutation_cons_append [Sample.reel; Sample.story] Sample.july). }
  split; [exact HP|].
  destruct (list_variants_agree Sample.ana Sample.june Sample.db
              Sample.shuffled HP eq_refl eq_refl) as (_ & Hs & Hrows).
  split; [exact Hs|].
  destruct (Hrows eq_refl eq_refl)
    as (rows1 & rows2 & B1 & B2 & _ & _ & _ & _ & _ & Heq).
  exists rows1. unfold listing. rewrite B1, B2.
  split; [reflexivity|]. f_equal. symmetry. apply Heq.
  vm_compute in B1. injection B1 as <-.
  repeat (constructor; [simpl; intuition discriminate|]). constructor.
Defined.

(** C8 as stated fails: neither query says how to order events with the
    same date and time, and each engine lists them as its table gives
    them.  Two stores that hold the same two such events, read in
    opposite orders, answer the same request with different
    sequences. *)
Lemma list_variants_differ_on_ties :
  Permutation (events Sample.tied) (events Sample.tied_back) /\
  failing Sample.tied = false /\ failing Sample.tied_back = false /\
  sort_key Sample.story = sort_key Sample.twin /\
  fst (Auth.route_get_events (Some Sample.ana) Sample.june Sample.tied) =
    res 200 (p_events [Sample.story; Sample.twin]) /\
  fst (NoAuth.get_events Sample.june Sample.tied_back) =
    res 200 (p_events [Sample.twin; Sample.story]) /\
  listing (fst (Auth.route_get_events (Some Sample.ana) Sample.june
                  Sample.tied)) <>
  listing (fst (NoAuth.get_events Sample.june Sample.tied_back)).
Proof.
  split; [apply perm_swap|].
  repeat match goal with |- _ /\ _ => split end; try reflexivity.
  vm_compute. discriminate.
Qed.

(** ** Keys *)

Section Keys.
Variables R K : Type.
Variable key : R -> K.
Variable eqb : K -> K -> bool.
Hypothesis eqb_eq : forall a b, eqb a b = true <-> a = b.

Lemma filter_key_absent (k : K) (l : list R) :
  ~ In k (map key l) -> filter (fun r => eqb (key r) k) l = [].
Proof.
  induction l as [|x l IH]; simpl; [reflexivity|]. intros H.
  destruct (eqb (key x) k) eqn:E.
  - apply eqb_eq in E. tauto.
  - apply IH. tauto.
Qed.

Lemma filter_key_unique (k : K) (l : list R) (e : R) :
  NoDup (map key l) -> In e l -> key e = k ->
  filter (fun r => eqb (key r) k) l = [e].
Proof.
  induction l as [|x l IH]; simpl; [tauto|].
  intros Hnd [->|He] Hk; inversion_clear Hnd as [|? ? Hx Hl].
  - rewrite (proj2 (eqb_eq _ _) Hk), filter_key_absent; congruence.
  - destruct (eqb (key x) k) eqn:E; [|now apply IH].
    apply eqb_eq in E. exfalso. apply Hx. rewrite E, <- Hk.
    now apply in_map.
Qed.

Lemma filter_key_other (k : K) (l : list R) :
  ~ In k (map key (filter (fun r => negb (eqb (key r) k)) l)).
Proof.
  rewrite in_map_iff. intros (r & Hk & Hr).
  apply filter_In in Hr. destruct Hr as [_ Hr].
  rewrite (proj2 (eqb_eq _ _) Hk) in Hr. discriminate.
Qed.
End Keys.

Lemma order_by_unordered (R : Type) (l : list R) :
  order_by (fun _ _ => true) l = l.
Proof.
  induction l as [|x l IH]; simpl; [reflexivity|].
  rewrite IH. now destruct l.
Qed.

Lemma find_issued (l : list Event.t) (row : Event.t) (i : N) :
  Event.id row = i -> (forall e, In e l -> (Event.id e < i)%N) ->
  find (fun r => (Event.id r =? i)%N) (l ++ [row])%list = Some row.
Proof.
  intros Hi. induction l as [|x l IH]; simpl; intros H.
  - now rewrite Hi, N.eqb_refl.
  - destruct (Event.id x =? i)%N eqn:E.
    + apply N.eqb_eq in E. specialize (H x (or_introl eq_refl)). lia.
    + apply IH. auto.
Qed.

(** ** Required fields *)

Lemma incomplete_iff (b : Body.t) :
  incomplete b = true <->
  missing (Body.date b) \/ missing (Body.time b) \/ missing (Body.title b).
Proof.
  unfold incomplete, missing.
  rewrite !orb_true_iff, !negb_true_iff. tauto.
Qed.

Lemma complete_iff (b : Body.t) :
  incomplete b = false <->
  present (Body.date b) /\ present (Body.time b) /\ present (Body.title b).
Proof.
  unfold incomplete, present.
  rewrite !orb_false_iff, !negb_false_iff. tauto.
Qed.

(** ** [POST /api/events] *)

Lemma created_consistent (s s' : store) (row : Event.t) :
  consistent s -> Event.id row = next_id s ->
  events s' = (events s ++ [row])%list -> users s' = users s ->
  next_id s' = N.succ (next_id s) ->
  consistent s'.
Proof.
  intros [Hu Hi He] Hid Hev Hus Hnx.
  split; unfold ids in *; rewrite ?Hev, ?Hus, ?Hnx; [| |exact He].
  - rewrite map_app. simpl.
    apply Permutation_NoDup with (l := Event.id row :: map Event.id (events s)).
    + apply Permutation_cons_append.
    + constructor; [|assumption].
      rewrite in_map_iff. intros (e & He1 & He2).
      specialize (Hi e He2). lia.
  - intros e [H|[<-|[]]]%in_app_or; [specialize (Hi e H)|]; lia.
Qed.

Lemma next_id_fresh (s : store) : consistent s -> ~ In (next_id s) (ids s).
Proof.
  intros [_ Hi _]. unfold ids. rewrite in_map_iff. intros (e & He1 & He2).
  specialize (Hi e He2). lia.
Qed.

Lemma auth_post_events_ok (u : SessionUser.t) (b : Body.t) (s : store) :
  incomplete b = false -> failing s = false -> consistent s ->
  created None (Some (SessionUser.id u)) b s
    (Auth.route_post_events (Some u) b s).
Proof.
  intros Hb Hf Hc.
  unfold Auth.route_post_events, Auth.requireAuth, Auth.post_events,
    Supabase.insert, created.
  rewrite Hb. simpl. answers Hf. simpl.
  split; [reflexivity|]. split; [reflexivity|].
  split; [now apply next_id_fresh|].
  eapply created_consistent;
    [exact Hc| |reflexivity|reflexivity|reflexivity]; reflexivity.
Qed.

Lemma noauth_post_events_ok (b : Body.t) (s : store) :
  incomplete b = false -> failing s = false -> consistent s ->
  created (Some "") None b s (NoAuth.post_events (Some b) s).
Proof.
  intros Hb Hf Hc.
  unfold NoAuth.post_events, Sqlite.insert, Sqlite.get, created.
  rewrite Hb. simpl. answers Hf. simpl. answers Hf. simpl.
  rewrite find_issued by (reflexivity || apply Hc).
  split; [reflexivity|]. split; [reflexivity|].
  split; [now apply next_id_fresh|].
  eapply created_consistent;
    [exact Hc| |reflexivity|reflexivity|reflexivity]; reflexivity.
Qed.

Lemma post_events_incomplete (u : SessionUser.t) (b : Body.t) (s : store) :
  incomplete b = true ->
  rejected 400 s (Auth.route_post_events (Some u) b s) /\
  rejected 400 s (NoAuth.post_events (Some b) s).
Proof.
  intros Hb.
  unfold Auth.route_post_events, Auth.requireAuth, Auth.post_events,
    NoAuth.post_events, rejected.
  rewrite Hb. split; eexists; reflexivity.
Qed.

(** C2 (as amended). A create request whose body has [date], [time] or
    [title] missing or empty is refused with 400 and nothing is stored;
    so is, by the Supabase variant, which reads [req.body || {}], a
    request that has no body.  Otherwise, with the store answering, one
    record is appended under the id the store assigns, with each optional
    field that is absent or empty stored as null by the Supabase variant
    and as the empty string by the SQLite variant, and the response is
    201 with that stored record. *)
Theorem create_validates_then_persists :
  forall (u : SessionUser.t) (b : Body.t) (s : store),
    (missing (Body.date b) \/ missing (Body.time b) \/ missing (Body.title b) ->
     rejected 400 s (Auth.route_post_events (Some u) b s) /\
     rejected 400 s (NoAuth.post_events (Some b) s)) /\
    rejected 400 s (Auth.route_post_events (Some u) Body.nothing s) /\
    (present (Body.date b) -> present (Body.time b) -> present (Body.title b) ->
     failing s = false -> consistent s ->
     created None (Some (SessionUser.id u)) b s
       (Auth.route_post_events (Some u) b s) /\
     created (Some "") None b s (NoAuth.post_events (Some b) s)).
Proof.
  intros u b s. split; [|split].
  - intros H. apply post_events_incomplete. now apply incomplete_iff.
  - now apply (post_events_incomplete u Body.nothing s).
  - intros Hd Ht Hti Hf Hc.
    assert (Hb : incomplete b = false) by now apply complete_iff.
    split; [now apply auth_post_events_ok | now apply noauth_post_events_ok].
Qed.

Lemma sample_empty_consistent : consistent Sample.empty.
Proof.
  split; simpl.
  - constructor.
  - intros e [].
  - unfold Sample.accounts. simpl.
    repeat (constructor; [simpl; intuition discriminate|]). constructor.
Qed.

Lemma sample_db_consistent : consistent Sample.db.
Proof.
  split; simpl.
  - unfold ids. simpl.
    repeat (constructor; [simpl; intuition discriminate|]). constructor.
  - intros e [<-|[<-|[<-|[]]]]; reflexivity.
  - repeat (constructor; [simpl; intuition discriminate|]). constructor.
Qed.

Lemma create_validates_then_persists_witness :
  (rejected 400 Sample.empty
     (Auth.route_post_events (Some Sample.leo) Sample.untitled Sample.empty) /\
   rejected 400 Sample.empty
     (NoAuth.post_events (Some Sample.untitled) Sample.empty)) /\
  (created None (Some 2%N) Sample.launch Sample.empty
     (Auth.route_post_events (Some Sample.leo) Sample.launch Sample.empty) /\
   created (Some "") None Sample.launch Sample.empty
     (NoAuth.post_events (Some Sample.launch) Sample.empty)).
Proof.
  split.
  - apply (proj1 (create_validates_then_persists
                    Sample.leo Sample.untitled Sample.empty)).
    right. right. reflexivity.
  - apply (proj2 (proj2 (create_validates_then_persists
                           Sample.leo Sample.launch Sample.empty)));
      try reflexivity.
    exact sample_empty_consistent.
Defined.

(** C2 as stated fails: the SQLite variant stores an absent optional
    field as the empty string, not as null. *)
Lemma create_absent_optional_is_empty_string :
  Body.channel Sample.launch = None /\
  exists row,
    NoAuth.post_events (Some Sample.launch) Sample.empty =
      (res 201 (p_event (Some row)),
       mkStore [row] Sample.accounts 2 20 []
         [InsertEvent (written (Some "") Sample.launch); SelectEvent 1]) /\
    Event.channel row = Some "" /\
    Event.channel row <> None.
Proof.
  split; [reflexivity|]. eexists. split; [reflexivity|].
  split; [reflexivity|discriminate].
Qed.

(** ** [PUT /api/events/:id] *)

Lemma matches_eq_id (id : N) (r : Event.t) :
  Supabase.matches (Supabase.from _ |> Supabase.eq_id Event.id id) r =
  (Event.id r =? id)%N.
Proof. unfold Supabase.matches. simpl. apply andb_true_r. Qed.

Lemma key_inj (l : list Event.t) (a b : Event.t) :
  NoDup (map Event.id l) -> In a l -> In b l -> Event.id a = Event.id b ->
  a = b.
Proof.
  induction l as [|x l IH]; simpl; [tauto|].
  intros Hnd Ha Hb Hab. inversion_clear Hnd as [|? ? Hx Hl].
  destruct Ha as [->|Ha], Hb as [->|Hb]; auto.
  - exfalso. apply Hx. rewrite Hab. now apply in_map.
  - exfalso. apply Hx. rewrite <- Hab. now apply in_map.
Qed.

Lemma set_absent (id : N) (f : Event.t -> Event.t) (l : list Event.t) :
  ~ In id (map Event.id l) ->
  map (fun r => if (Event.id r =? id)%N then f r else r) l = l.
Proof.
  induction l as [|x l IH]; simpl; [reflexivity|]. intros H.
  destruct (Event.id x =? id)%N eqn:E.
  - apply N.eqb_eq in E. tauto.
  - rewrite IH; tauto.
Qed.

Lemma set_unique (old : Event.t) (f : Event.t -> Event.t) (l : list Event.t) :
  NoDup (map Event.id l) -> In old l ->
  map (fun r => if (Event.id r =? Event.id old)%N then f r else r) l =
  map (fun r => if (Event.id r =? Event.id old)%N then f old else r) l.
Proof.
  intros Hnd Hold. apply map_ext_in. intros r Hr.
  destruct (Event.id r =? Event.id old)%N eqn:E; [|reflexivity].
  apply N.eqb_eq in E. now rewrite (key_inj l r old Hnd Hr Hold E).
Qed.

Lemma find_set (old row : Event.t) (l : list Event.t) :
  In old l -> Event.id row = Event.id old ->
  find (fun r => (Event.id r =? Event.id old)%N)
    (map (fun r => if (Event.id r =? Event.id old)%N then row else r) l) =
  Some row.
Proof.
  intros Hold Hid. induction l as [|x l IH]; simpl; [destruct Hold|].
  destruct (Event.id x =? Event.id old)%N eqn:E.
  - now rewrite Hid, N.eqb_refl.
  - rewrite E. apply IH. destruct Hold as [->|H]; [|assumption].
    now rewrite N.eqb_refl in E.
Qed.

Lemma ids_set (old row : Event.t) (l : list Event.t) :
  Event.id row = Event.id old ->
  map Event.id
    (map (fun r => if (Event.id r =? Event.id old)%N then row else r) l) =
  map Event.id l.
Proof.
  intros Hid. rewrite map_map. apply map_ext. intros r.
  destruct (Event.id r =? Event.id old)%N eqn:E; [|reflexivity].
  apply N.eqb_eq in E. congruence.
Qed.

Lemma In_set (old row : Event.t) (l : list Event.t) :
  In old l ->
  In row (map (fun r => if (Event.id r =? Event.id old)%N then row else r) l).
Proof.
  intros H. apply in_map_iff. exists old. now rewrite N.eqb_refl.
Qed.

Lemma auth_put_events_absent (id : N) (b : Body.t) (s : store) :
  incomplete b = false -> failing s = false -> ~ In id (ids s) ->
  not_found s (Auth.put_events id b s).
Proof.
  intros Hb Hf Hid.
  unfold Auth.put_events, Supabase.update, not_found, same_data.
  rewrite Hb. simpl. answers Hf.
  rewrite (filter_ext _ _ (matches_eq_id id)).
  rewrite (filter_key_absent Event.id N.eqb N.eqb_eq id (events s) Hid).
  simpl. eexists. split; [reflexivity|]. split; [|split; reflexivity].
  rewrite (map_ext _ _ (fun r => f_equal (fun c : bool =>
             if c then Event.set _ r else r) (matches_eq_id id r))).
  now apply set_absent.
Qed.

Lemma auth_put_events_ok (b : Body.t) (s : store) (old : Event.t) :
  incomplete b = false -> failing s = false -> consistent s ->
  In old (events s) ->
  updated None b s old (Auth.put_events (Event.id old) b s).
Proof.
  intros Hb Hf Hc Hold.
  unfold Auth.put_events, Supabase.update, updated.
  rewrite Hb. simpl. answers Hf.
  rewrite (filter_ext _ _ (matches_eq_id (Event.id old))).
  rewrite (@filter_key_unique _ _ Event.id N.eqb N.eqb_eq (Event.id old)
             (events s) old (ids_unique Hc) Hold eq_refl).
  rewrite (map_ext _ _ (fun r => f_equal (fun c : bool =>
             if c then Event.set _ r else r)
             (matches_eq_id (Event.id old) r))).
  simpl. rewrite (@set_unique old _ (events s) (ids_unique Hc) Hold).
  split; [reflexivity|]. split; [reflexivity|].
  split; [now apply In_set|]. unfold ids. simpl. now apply ids_set.
Qed.

Lemma count_zero (l : list Event.t) : (Sqlite.count l =? 0)%N = true <-> l = [].
Proof.
  unfold Sqlite.count. rewrite N.eqb_eq. destruct l; simpl; [tauto|].
  split; [lia|discriminate].
Qed.

Lemma noauth_put_events_absent (id : N) (b : Body.t) (s : store) :
  incomplete b = false -> failing s = false -> ~ In id (ids s) ->
  not_found s (NoAuth.put_events id (Some b) s).
Proof.
  intros Hb Hf Hid.
  unfold NoAuth.put_events, Sqlite.update, not_found, same_data.
  rewrite Hb. simpl. answers Hf.
  rewrite (filter_key_absent Event.id N.eqb N.eqb_eq id (events s) Hid).
  simpl. eexists. split; [reflexivity|]. split; [|split; reflexivity].
  now apply set_absent.
Qed.

Lemma noauth_put_events_ok (b : Body.t) (s : store) (old : Event.t) :
  incomplete b = false -> failing s = false -> consistent s ->
  In old (events s) ->
  updated (Some "") b s old (NoAuth.put_events (Event.id old) (Some b) s).
Proof.
  intros Hb Hf Hc Hold.
  unfold NoAuth.put_events, Sqlite.update, Sqlite.get, updated.
  rewrite Hb. simpl. answers Hf.
  rewrite (@filter_key_unique _ _ Event.id N.eqb N.eqb_eq (Event.id old)
             (events s) old (ids_unique Hc) Hold eq_refl).
  simpl. answers Hf. rewrite (@set_unique old _ (events s) (ids_unique Hc) Hold).
  rewrite find_set by (assumption || reflexivity). simpl.
  split; [reflexivity|]. split; [reflexivity|].
  split; [now apply In_set|]. unfold ids. simpl. now apply ids_set.
Qed.

Lemma put_events_incomplete (u : SessionUser.t) (id : N) (b : Body.t)
  (s : store) :
  incomplete b = true ->
  rejected 400 s (Auth.route_put_events (Some u) id b s) /\
  rejected 400 s (NoAuth.put_events id (Some b) s).
Proof.
  intros Hb.
  unfold Auth.route_put_events, Auth.requireAuth, Auth.put_events,
    NoAuth.put_events, rejected.
  rewrite Hb. split; eexists; reflexivity.
Qed.

(** C3 (as amended). An update with valid required fields on an id that
    no event has answers 404 and creates or changes no record.  On an id
    that exists, the record takes the submitted [date], [time] and
    [title], and for [channel], [platform] and [notes] the submitted value
    when it is non-empty and otherwise null (Supabase variant) or the
    empty string (SQLite variant); id, creation data and the other
    records stay as they were, and the response is 200 with the updated
    record. *)
Theorem update_not_found_or_replaced :
  forall (u : SessionUser.t) (id : N) (b : Body.t) (s : store),
    present (Body.date b) -> present (Body.time b) -> present (Body.title b) ->
    failing s = false ->
    (~ In id (ids s) ->
     not_found s (Auth.route_put_events (Some u) id b s) /\
     not_found s (NoAuth.put_events id (Some b) s)) /\
    (consistent s ->
     forall old, In old (events s) -> Event.id old = id ->
       updated None b s old (Auth.route_put_events (Some u) id b s) /\
       updated (Some "") b s old (NoAuth.put_events id (Some b) s)).
Proof.
  intros u id b s Hd Ht Hti Hf.
  assert (Hb : incomplete b = false) by now apply complete_iff.
  unfold Auth.route_put_events, Auth.requireAuth. split.
  - intros Hid. split;
      [now apply auth_put_events_absent | now apply noauth_put_events_absent].
  - intros Hc old Hold <-. split;
      [now apply auth_put_events_ok | now apply noauth_put_events_ok].
Qed.

Lemma update_not_found_or_replaced_witness :
  (not_found Sample.db
     (Auth.route_put_events (Some Sample.leo) 9 Sample.launch Sample.db) /\
   not_found Sample.db (NoAuth.put_events 9 (Some Sample.launch) Sample.db)) /\
  (updated None Sample.launch Sample.db Sample.story
     (Auth.route_put_events (Some Sample.leo) 2 Sample.launch Sample.db) /\
   updated (Some "") Sample.launch Sample.db Sample.story
     (NoAuth.put_events 2 (Some Sample.launch) Sample.db)).
Proof.
  split.
  - apply (proj1 (update_not_found_or_replaced Sample.leo 9 Sample.launch
                    Sample.db eq_refl eq_refl eq_refl eq_refl)).
    simpl. intuition discriminate.
  - apply (proj2 (update_not_found_or_replaced Sample.leo 2 Sample.launch
                    Sample.db eq_refl eq_refl eq_refl eq_refl)).
    + exact sample_db_consistent.
    + simpl. auto.
    + reflexivity.
Defined.

(** C3 as stated fails: a channel submitted as the empty string is not
    what the Supabase variant stores; the record gets null. *)
Lemma update_blank_optional_becomes_null :
  Body.channel Sample.blank_channel = Some "" /\
  In Sample.reel (events Sample.db) /\
  exists row,
    fst (Auth.route_put_events (Some Sample.leo) 1 Sample.blank_channel
           Sample.db) = res 200 (p_event (Some row)) /\
    In row (events (snd (Auth.route_put_events (Some Sample.leo) 1
                           Sample.blank_channel Sample.db))) /\
    Event.id row = Event.id Sample.reel /\
    Event.channel row = None /\
    Event.channel row <> Body.channel Sample.blank_channel.
Proof.
  split; [reflexivity|]. split; [now left|]. eexists.
  split; [reflexivity|]. split; [now left|].
  split; [reflexivity|]. split; [reflexivity|discriminate].
Qed.

(** C9 (holds but for one request). In an update the required fields
    are checked before the store is asked: for a body with [date], [time]
    or [title] missing or empty the answer is 400 and never 404, whatever
    the id, and the store receives no call, in both variants.  A request
    with no body at all is told apart.  The Supabase handler reads
    [req.body || {}] and answers it with 400 too.  The SQLite handler
    reads [req.body] unguarded and before its [try]: it throws before any
    field is checked, and the request ends in a 500 that carries no
    [{ error }]. *)
Theorem update_validation_precedes_lookup :
  forall (u : SessionUser.t) (id : N) (b : Body.t) (s : store),
    (missing (Body.date b) \/ missing (Body.time b) \/ missing (Body.title b) ->
     rejected 400 s (Auth.route_put_events (Some u) id b s) /\
     rejected 400 s (NoAuth.put_events id (Some b) s) /\
     status (fst (Auth.route_put_events (Some u) id b s)) <> 404%N /\
     status (fst (NoAuth.put_events id (Some b) s)) <> 404%N) /\
    rejected 400 s (Auth.route_put_events (Some u) id Body.nothing s) /\
    NoAuth.put_events id None s = (res 500 p_html, s) /\
    ~ rejected 400 s (NoAuth.put_events id None s).
Proof.
  intros u id b s. split; [|split; [|split]].
  - intros H. apply incomplete_iff in H.
    destruct (put_events_incomplete u id b s H) as [[m1 H1] [m2 H2]].
    split; [now exists m1|]. split; [now exists m2|].
    rewrite H1, H2. simpl. split; discriminate.
  - now apply (put_events_incomplete u id Body.nothing s).
  - reflexivity.
  - intros [msg H]. discriminate H.
Qed.

Lemma update_validation_precedes_lookup_witness :
  ~ In 99%N (ids Sample.db) /\
  rejected 400 Sample.db
    (Auth.route_put_events (Some Sample.leo) 99 Sample.untitled Sample.db) /\
  rejected 400 Sample.db
    (NoAuth.put_events 99 (Some Sample.untitled) Sample.db) /\
  status (fst (Auth.route_put_events (Some Sample.leo) 99 Sample.untitled
                 Sample.db)) <> 404%N /\
  status (fst (NoAuth.put_events 99 (Some Sample.untitled) Sample.db)) <>
    404%N.
Proof.
  split.
  - simpl. intuition discriminate.
  - apply (proj1 (update_validation_precedes_lookup Sample.leo 99
                    Sample.untitled Sample.db)).
    right. right. reflexivity.
Defined.

(** ** Create, then list *)

Lemma auth_post_events_failing (sess : Auth.session) (b : Body.t) (s : store) :
  failing s = false ->
  failing (snd (Auth.route_post_events sess b s)) = false.
Proof.
  intros Hf.
  unfold Auth.route_post_events, Auth.requireAuth, Auth.post_events,
    Supabase.insert.
  destruct sess as [u|]; [|exact Hf].
  destruct (incomplete b); [exact Hf|]. simpl.
  destruct (fails s); simpl; answering Hf.
Qed.

Lemma noauth_post_events_failing (body : option Body.t) (s : store) :
  failing s = false ->
  failing (snd (NoAuth.post_events body s)) = false.
Proof.
  intros Hf. unfold NoAuth.post_events, Sqlite.insert, Sqlite.get.
  destruct body as [b|]; [|exact Hf].
  destruct (incomplete b); [exact Hf|]. simpl.
  destruct (fails s); simpl; [answering Hf|].
  destruct (fails _); simpl; answering Hf.
Qed.

Lemma present_text (f : field) : present f -> f = Some (text f).
Proof. destruct f; [reflexivity|discriminate]. Qed.

Lemma or_else_present (f blank : field) : present f -> or_else f blank = f.
Proof. unfold present, or_else. now intros ->. Qed.

Lemma or_else_sent (f : field) : f <> None -> or_else f (Some "") = f.
Proof.
  unfold or_else. destruct f as [v|]; [|congruence]. intros _. simpl.
  destruct (v =? "") eqn:E; [|reflexivity].
  apply String.eqb_eq in E. now subst.
Qed.

Lemma created_kept (blank : field) (by_ : option N) (b : Body.t) (s : store) :
  present (Body.date b) -> present (Body.time b) -> present (Body.title b) ->
  kept b (Event.create (next_id s) (written blank b) (now s) by_).
Proof.
  intros Hd Ht Hti. unfold kept. simpl.
  repeat split; try (now apply present_text);
    intros H; now apply or_else_present.
Qed.

Lemma or_else_missing (f blank : field) : missing f -> or_else f blank = blank.
Proof. unfold missing, or_else. now intros ->. Qed.

Lemma created_blanked (blank : field) (by_ : option N) (b : Body.t)
  (s : store) :
  blanked blank b (Event.create (next_id s) (written blank b) (now s) by_).
Proof. unfold blanked. simpl. repeat split; apply or_else_missing. Qed.

Lemma created_kept_as_sent (by_ : option N) (b : Body.t) (s : store) :
  kept_as_sent b (Event.create (next_id s) (written (Some "") b) (now s) by_).
Proof. unfold kept_as_sent. simpl. repeat split; apply or_else_sent. Qed.

(** C7 (as amended). After a successful create, a list over a range
    that contains the event's date returns the created record with
    [date], [time] and [title] as submitted and with every optional field
    that was submitted non-empty as submitted.  An optional field that
    was submitted as the empty string, or not submitted, comes back as
    null from the Supabase variant and as the empty string from the
    SQLite variant, which so returns every submitted optional field as
    it was. *)
Theorem create_then_list_keeps_fields :
  forall (u : SessionUser.t) (b : Body.t) (q : Range.t) (s : store),
    present (Body.date b) -> present (Body.time b) -> present (Body.title b) ->
    present (Range.start q) -> present (Range.end_ q) ->
    (text (Range.start q) <=? text (Body.date b)) = true ->
    (text (Body.date b) <=? text (Range.end_ q)) = true ->
    failing s = false -> consistent s ->
    read_back (Auth.route_post_events (Some u) b s)
      (Auth.route_get_events (Some u) q
         (snd (Auth.route_post_events (Some u) b s)))
      (fun row => kept b row /\ blanked None b row) /\
    read_back (NoAuth.post_events (Some b) s)
      (NoAuth.get_events q (snd (NoAuth.post_events (Some b) s)))
      (fun row => kept b row /\ blanked (Some "") b row /\
                  kept_as_sent b row).
Proof.
  intros u b q s Hd Ht Hti Hs He Hlo Hhi Hf Hc.
  assert (Hb : incomplete b = false) by now apply complete_iff.
  split.
  - destruct (@auth_post_events_ok u b s Hb Hf Hc) as (Hr & Hev & _ & _).
    pose proof (@auth_post_events_failing (Some u) b s Hf) as Hf'.
    destruct (proj1 (@list_rows_of_route u q _ Hs He Hf'))
      as (rows & Hout & _ & HIn & _).
    eexists. exists rows. split; [exact Hr|]. split; [now rewrite Hout|].
    split; [|split; [now apply created_kept|apply created_blanked]].
    apply HIn. rewrite Hev. split; [apply in_or_app; right; now left|].
    split; assumption.
  - destruct (@noauth_post_events_ok b s Hb Hf Hc) as (Hr & Hev & _ & _).
    pose proof (@noauth_post_events_failing (Some b) s Hf) as Hf'.
    destruct (proj2 (@list_rows_of_route u q _ Hs He Hf'))
      as (rows & Hout & _ & HIn & _).
    eexists. exists rows. split; [exact Hr|]. split; [now rewrite Hout|].
    split; [|split; [now apply created_kept|
                     split; [apply created_blanked|
                             apply created_kept_as_sent]]].
    apply HIn. rewrite Hev. split; [apply in_or_app; right; now left|].
    split; assumption.
Qed.

Lemma create_then_list_keeps_fields_witness :
  Body.channel Sample.blank_channel = Some "" /\
  Body.platform Sample.blank_channel = Some "Instagram" /\
  read_back
    (Auth.route_post_events (Some Sample.leo) Sample.blank_channel Sample.db)
    (Auth.route_get_events (Some Sample.leo) Sample.june
       (snd (Auth.route_post_events (Some Sample.leo) Sample.blank_channel
               Sample.db)))
    (fun row => kept Sample.blank_channel row /\
                blanked None Sample.blank_channel row) /\
  read_back (NoAuth.post_events (Some Sample.blank_channel) Sample.db)
    (NoAuth.get_events Sample.june
       (snd (NoAuth.post_events (Some Sample.blank_channel) Sample.db)))
    (fun row => kept Sample.blank_channel row /\
                blanked (Some "") Sample.blank_channel row /\
                kept_as_sent Sample.blank_channel row).
Proof.
  split; [reflexivity|]. split; [reflexivity|].
  apply (@create_then_list_keeps_fields Sample.leo Sample.blank_channel
           Sample.june Sample.db); try reflexivity.
  exact sample_db_consistent.
Defined.

(** C7 as stated fails: a channel submitted as the empty string comes
    back as null from the list that follows the create (Supabase
    variant). *)
Lemma create_then_list_blank_channel_reads_null :
  Body.channel Sample.blank_channel = Some "" /\
  exists row,
    fst (Auth.route_post_events (Some Sample.leo) Sample.blank_channel
           Sample.empty) = res 201 (p_event (Some row)) /\
    fst (Auth.route_get_events (Some Sample.leo) Sample.june
           (snd (Auth.route_post_events (Some Sample.leo) Sample.blank_channel
                   Sample.empty))) = res 200 (p_events [row]) /\
    Event.channel row = None /\
    Event.channel row <> Body.channel Sample.blank_channel.
Proof.
  split; [reflexivity|]. eexists.
  split; [reflexivity|]. split; [reflexivity|].
  split; [reflexivity|discriminate].
Qed.

(** ** [DELETE /api/events/:id] *)

Lemma remove_absent (id : N) (l : list Event.t) :
  ~ In id (map Event.id l) ->
  filter (fun r => negb (Event.id r =? id)%N) l = l.
Proof.
  induction l as [|x l IH]; simpl; [reflexivity|]. intros H.
  destruct (Event.id x =? id)%N eqn:E; simpl.
  - apply N.eqb_eq in E. tauto.
  - rewrite IH; tauto.
Qed.

Lemma listing_auth_incl (sess : Auth.session) (q : Range.t) (s : store)
  (rows : list Event.t) :
  listing (fst (Auth.route_get_events sess q s)) = Some rows ->
  incl rows (events s).
Proof.
  unfold Auth.route_get_events, Auth.requireAuth, Auth.get_events,
    Supabase.select_events.
  destruct sess as [u|]; [|discriminate].
  destruct (negb (truthy (Range.start q)) || negb (truthy (Range.end_ q)));
    [discriminate|].
  simpl. destruct (fails s); [discriminate|]. simpl.
  intros [= <-] e He. unfold Supabase.rows_of in He.
  apply order_by_In, filter_In in He. apply He.
Qed.

Lemma listing_noauth_incl (q : Range.t) (s : store) (rows : list Event.t) :
  listing (fst (NoAuth.get_events q s)) = Some rows -> incl rows (events s).
Proof.
  unfold NoAuth.get_events, Sqlite.all_in_range.
  destruct (negb (truthy (Range.start q)) || negb (truthy (Range.end_ q)));
    [discriminate|].
  simpl. destruct (fails s); [discriminate|]. simpl.
  intros [= <-] e He. apply order_by_In, filter_In in He. apply He.
Qed.

Lemma removed (id : N) (s s' : store) (r : response) :
  consistent s -> In id (ids s) ->
  r = res 200 p_success ->
  events s' = filter (fun r => negb (Event.id r =? id)%N) (events s) ->
  deleted id s (r, s').
Proof.
  intros Hc Hid -> Hev. unfold deleted. simpl.
  split; [reflexivity|]. split; [reflexivity|].
  assert (Hgone : ~ In id (ids s')).
  { unfold ids. rewrite Hev.
    apply (filter_key_other Event.id N.eqb N.eqb_eq). }
  split; [|split; [exact Hgone|]].
  - unfold ids in Hid. apply in_map_iff in Hid.
    destruct Hid as (old & Hold & HIn). exists old.
    split; [assumption|]. split; [assumption|].
    rewrite Hev.
    rewrite (filter_split (fun r => (Event.id r =? id)%N) (events s)) at 1.
    now rewrite (@filter_key_unique _ _ Event.id N.eqb N.eqb_eq id (events s)
                  old (ids_unique Hc) HIn Hold).
  - intros u q rows [H|H] Hrow; apply Hgone;
      [apply (@listing_auth_incl (Some u) q s' rows) in H
      |apply listing_noauth_incl in H];
      unfold ids; apply (incl_map Event.id H); assumption.
Qed.

Lemma auth_delete_events_absent (id : N) (s : store) :
  failing s = false -> ~ In id (ids s) ->
  not_found s (Auth.delete_events id s).
Proof.
  intros Hf Hid.
  unfold Auth.delete_events, Supabase.delete, not_found, same_data.
  simpl. answers Hf.
  rewrite (filter_ext _ _ (matches_eq_id id)).
  rewrite (filter_key_absent Event.id N.eqb N.eqb_eq id (events s) Hid).
  simpl. eexists. split; [reflexivity|]. split; [|split; reflexivity].
  rewrite (filter_ext _ _ (fun r => f_equal negb (matches_eq_id id r))).
  now apply remove_absent.
Qed.

Lemma auth_delete_events_ok (id : N) (s : store) :
  failing s = false -> consistent s -> In id (ids s) ->
  deleted id s (Auth.delete_events id s).
Proof.
  intros Hf Hc Hid.
  pose proof Hid as Hid'. unfold ids in Hid'. apply in_map_iff in Hid'.
  destruct Hid' as (old & Hold & HIn).
  unfold Auth.delete_events, Supabase.delete. simpl. answers Hf.
  rewrite (filter_ext _ _ (matches_eq_id id)).
  rewrite (@filter_key_unique _ _ Event.id N.eqb N.eqb_eq id (events s)
             old (ids_unique Hc) HIn Hold).
  simpl. apply removed; try assumption; try reflexivity.
  simpl. apply filter_ext. intros r. now rewrite matches_eq_id.
Qed.

Lemma noauth_delete_events_absent (id : N) (s : store) :
  failing s = false -> ~ In id (ids s) ->
  not_found s (NoAuth.delete_events id s).
Proof.
  intros Hf Hid.
  unfold NoAuth.delete_events, Sqlite.delete, not_found, same_data.
  simpl. answers Hf.
  rewrite (filter_key_absent Event.id N.eqb N.eqb_eq id (events s) Hid).
  simpl. eexists. split; [reflexivity|]. split; [|split; reflexivity].
  now apply remove_absent.
Qed.

Lemma noauth_delete_events_ok (id : N) (s : store) :
  failing s = false -> consistent s -> In id (ids s) ->
  deleted id s (NoAuth.delete_events id s).
Proof.
  intros Hf Hc Hid.
  pose proof Hid as Hid'. unfold ids in Hid'. apply in_map_iff in Hid'.
  destruct Hid' as (old & Hold & HIn).
  unfold NoAuth.delete_events, Sqlite.delete. simpl. answers Hf.
  rewrite (@filter_key_unique _ _ Event.id N.eqb N.eqb_eq id (events s)
             old (ids_unique Hc) HIn Hold).
  simpl. apply removed; try assumption; reflexivity.
Qed.

(** C4. A delete on an id that no event has answers 404 and leaves the
    records as they were.  On an id that exists, that record and no other
    is removed, no later list over any range shows the id, and the body
    of the response is the success flag alone.  Holds for the Supabase
    route (admin session) and for the SQLite route. *)
Theorem delete_not_found_or_removed :
  forall (u : SessionUser.t) (id : N) (s : store),
    SessionUser.role u = "admin" -> failing s = false ->
    (~ In id (ids s) ->
     not_found s (Auth.route_delete_events (Some u) id s) /\
     not_found s (NoAuth.delete_events id s)) /\
    (In id (ids s) -> consistent s ->
     deleted id s (Auth.route_delete_events (Some u) id s) /\
     deleted id s (NoAuth.delete_events id s)).
Proof.
  intros u id s Hu Hf.
  unfold Auth.route_delete_events, Auth.requireAdmin.
  rewrite Hu. simpl. split.
  - intros Hid. split;
      [now apply auth_delete_events_absent
      |now apply noauth_delete_events_absent].
  - intros Hid Hc. split;
      [now apply auth_delete_events_ok | now apply noauth_delete_events_ok].
Qed.

Lemma delete_not_found_or_removed_witness :
  (not_found Sample.db (Auth.route_delete_events (Some Sample.ana) 9 Sample.db) /\
   not_found Sample.db (NoAuth.delete_events 9 Sample.db)) /\
  (deleted 2 Sample.db (Auth.route_delete_events (Some Sample.ana) 2 Sample.db) /\
   deleted 2 Sample.db (NoAuth.delete_events 2 Sample.db)).
Proof.
  split.
  - apply (proj1 (@delete_not_found_or_removed Sample.ana 9 Sample.db
                    eq_refl eq_refl)).
    simpl. intuition discriminate.
  - apply (proj2 (@delete_not_found_or_removed Sample.ana 2 Sample.db
                    eq_refl eq_refl)).
    + simpl. auto.
    + exact sample_db_consistent.
Defined.

(** ** The admin guard *)

(** C6. Behind [requireAdmin], a request without a session user is
    refused with 401 and a request whose session user is not an admin is
    refused with 403; in both cases what the guard protects is not run:
    the answer does not depend on it and the store, its log of calls
    included, is as before.  This holds for the guard before any
    continuation and so for [DELETE /api/events/:id]. *)
Theorem require_admin_blocks_delete :
  forall (sess : Auth.session) (id : N) (s : store)
         (next : store -> response * store),
    (sess = None ->
     Auth.requireAdmin sess next s =
       (res 401 (p_error "No autenticado"), s) /\
     Auth.route_delete_events sess id s =
       (res 401 (p_error "No autenticado"), s) /\
     calls (snd (Auth.route_delete_events sess id s)) = calls s /\
     events (snd (Auth.route_delete_events sess id s)) = events s) /\
    (forall u, sess = Some u -> SessionUser.role u <> "admin" ->
     Auth.requireAdmin sess next s =
       (res 403 (p_error "No autorizado (se requiere admin)"), s) /\
     Auth.route_delete_events sess id s =
       (res 403 (p_error "No autorizado (se requiere admin)"), s) /\
     calls (snd (Auth.route_delete_events sess id s)) = calls s /\
     events (snd (Auth.route_delete_events sess id s)) = events s).
Proof.
  intros sess id s next. unfold Auth.route_delete_events. split.
  - intros ->. simpl. repeat split.
  - intros u -> Hu. simpl.
    apply String.eqb_neq in Hu. rewrite Hu. simpl. repeat split.
Qed.

Lemma require_admin_blocks_delete_witness :
  (Auth.route_delete_events None 2 Sample.db =
     (res 401 (p_error "No autenticado"), Sample.db) /\
   events (snd (Auth.route_delete_events None 2 Sample.db)) = events Sample.db) /\
  (Auth.route_delete_events (Some Sample.leo) 2 Sample.db =
     (res 403 (p_error "No autorizado (se requiere admin)"), Sample.db) /\
   events (snd (Auth.route_delete_events (Some Sample.leo) 2 Sample.db)) =
   events Sample.db).
Proof.
  split.
  - destruct (proj1 (require_admin_blocks_delete None 2 Sample.db
                       (Auth.delete_events 2)) eq_refl) as (_ & H & _ & H').
    split; assumption.
  - destruct (proj2 (require_admin_blocks_delete (Some Sample.leo) 2 Sample.db
                       (Auth.delete_events 2)) Sample.leo eq_refl)
      as (_ & H & _ & H').
    + discriminate.
    + split; assumption.
Defined.

(** ** [POST /api/login] *)

Lemma rows_of_eq_email (e : string) (table : list User.t) :
  Supabase.rows_of (Supabase.from _ |> Supabase.eq User.email e) table =
  filter (fun user => User.email user =? e) table.
Proof.
  unfold Supabase.rows_of. simpl.
  change (Supabase.before []) with (fun _ _ : User.t => true).
  rewrite order_by_unordered. apply filter_ext. intros user.
  unfold Supabase.matches. simpl. apply andb_true_r.
Qed.

Lemma same_email (l : list User.t) (a b : User.t) :
  NoDup (map User.email l) -> In a l -> In b l ->
  User.email a = User.email b -> a = b.
Proof.
  induction l as [|x l IH]; simpl; [tauto|].
  intros Hnd Ha Hb Hab. inversion_clear Hnd as [|? ? Hx Hl].
  destruct Ha as [->|Ha], Hb as [->|Hb]; auto; exfalso; apply Hx.
  - rewrite Hab. now apply in_map.
  - rewrite <- Hab. now apply in_map.
Qed.

Lemma post_login_unknown (c : Credentials.t) (sess : Auth.session) (s : store) :
  present (Credentials.email c) -> present (Credentials.password c) ->
  failing s = false ->
  ~ In (text (Credentials.email c)) (map User.email (users s)) ->
  Auth.post_login c sess s =
  (res 401 (p_error "Credenciales inválidas"), sess,
   log (SelectUser (text (Credentials.email c))) s).
Proof.
  unfold present, Auth.post_login, Supabase.select_user.
  intros -> -> Hf Hno. simpl. answers Hf. rewrite rows_of_eq_email.
  now rewrite (filter_key_absent User.email String.eqb String.eqb_eq _ _ Hno).
Qed.

Lemma post_login_found (c : Credentials.t) (sess : Auth.session) (s : store)
  (user : User.t) :
  present (Credentials.email c) -> present (Credentials.password c) ->
  failing s = false -> consistent s ->
  In user (users s) -> User.email user = text (Credentials.email c) ->
  Auth.post_login c sess s =
  (if User.active user && (User.password user =? text (Credentials.password c))
   then (res 200 (p_user (projection user)), Some (projection user))
   else (res 401 (p_error "Credenciales inválidas"), sess),
   log (SelectUser (text (Credentials.email c))) s).
Proof.
  unfold present, Auth.post_login, Supabase.select_user.
  intros -> -> Hf Hc Huser Hemail. simpl. answers Hf. rewrite rows_of_eq_email.
  rewrite (@filter_key_unique _ _ User.email String.eqb String.eqb_eq _ _ user
             (emails_unique Hc) Huser Hemail).
  simpl. destruct (User.active user); simpl; [|reflexivity].
  now destruct (User.password user =? text (Credentials.password c)).
Qed.

(** C5. A login with both fields given is answered with 401 exactly when
    no user has the email, or the user is inactive, or the stored
    password differs from the submitted one as a string; a 401 leaves the
    session as it was.  Otherwise the answer is 200, and the session user
    and the body are both the [{ id, email, role }] of the stored user, so
    the role of the session is the stored role. *)
Theorem login_unauthorized_iff :
  forall (c : Credentials.t) (sess : Auth.session) (s : store),
    present (Credentials.email c) -> present (Credentials.password c) ->
    failing s = false -> consistent s ->
    let email := text (Credentials.email c) in
    let password := text (Credentials.password c) in
    let r := fst (fst (Auth.post_login c sess s)) in
    let sess' := snd (fst (Auth.post_login c sess s)) in
    (status r = 401%N <->
     (forall user, In user (users s) -> User.email user <> email) \/
     (exists user,
        In user (users s) /\ User.email user = email /\
        (User.active user = false \/ User.password user <> password))) /\
    (status r = 401%N -> sess' = sess) /\
    (status r <> 401%N ->
     exists user,
       In user (users s) /\ User.email user = email /\
       r = res 200 (p_user (projection user)) /\
       sess' = Some (projection user) /\
       option_map SessionUser.role sess' = Some (User.role user)).
Proof.
  intros c sess s He Hp Hf Hc. cbv zeta.
  destruct (in_dec string_dec (text (Credentials.email c))
              (map User.email (users s))) as [Hin|Hno].
  - apply in_map_iff in Hin. destruct Hin as (user & Hemail & Huser).
    rewrite (@post_login_found c sess s user He Hp Hf Hc Huser Hemail).
    destruct (User.active user) eqn:Ha;
      [destruct (User.password user =? text (Credentials.password c)) eqn:Hpw|];
      simpl.
    + apply String.eqb_eq in Hpw.
      split; [split; [discriminate|]|split; [discriminate|]].
      * intros [Hnone|(other & Hother & Hsame & Hbad)].
        -- now destruct (Hnone user Huser).
        -- rewrite <- Hemail in Hsame.
           rewrite (@same_email (users s) other user (emails_unique Hc) Hother Huser
                      Hsame) in Hbad.
           destruct Hbad; congruence.
      * intros _. exists user. auto.
    + apply String.eqb_neq in Hpw.
      split; [split; [|reflexivity]|split; [reflexivity|congruence]].
      intros _. right. exists user. auto.
    + split; [split; [|reflexivity]|split; [reflexivity|congruence]].
      intros _. right. exists user. auto.
  - rewrite (@post_login_unknown c sess s He Hp Hf Hno). simpl.
    split; [split; [|reflexivity]|split; [reflexivity|congruence]].
    intros _. left. intros user Huser Hemail. apply Hno.
    rewrite <- Hemail. now apply in_map.
Qed.

Lemma login_unauthorized_iff_witness :
  (exists user,
     In user (users Sample.db) /\ User.email user = "ana@wfg.com" /\
     fst (fst (Auth.post_login Sample.ana_login None Sample.db)) =
       res 200 (p_user (projection user)) /\
     snd (fst (Auth.post_login Sample.ana_login None Sample.db)) =
       Some (projection user) /\
     option_map SessionUser.role
       (snd (fst (Auth.post_login Sample.ana_login None Sample.db))) =
       Some (User.role user)) /\
  status (fst (fst (Auth.post_login Sample.ana_typo None Sample.db))) = 401%N.
Proof.
  split.
  - apply (proj2 (proj2 (@login_unauthorized_iff Sample.ana_login None
                           Sample.db eq_refl eq_refl eq_refl
                           sample_db_consistent))).
    simpl. discriminate.
  - apply (proj1 (@login_unauthorized_iff Sample.ana_typo None Sample.db
                    eq_refl eq_refl eq_refl sample_db_consistent)).
    right. eexists. split; [left; reflexivity|].
    split; [reflexivity|]. right. discriminate.
Defined.

Lemma post_login_cases (c : Credentials.t) (sess : Auth.session) (s : store) :
  (exists code msg,
     In msg login_errors /\
     fst (Auth.post_login c sess s) = (res code (p_error msg), sess)) \/
  (exists user,
     In user (users s) /\
     fst (Auth.post_login c sess s) =
       (res 200 (p_user (projection user)), Some (projection user))).
Proof.
  unfold Auth.post_login, Supabase.select_user, login_errors.
  destruct (negb (truthy (Credentials.email c)) ||
            negb (truthy (Credentials.password c)));
    [left; do 2 eexists; split; [|reflexivity]; simpl; auto|].
  simpl. destruct (fails s);
    [left; do 2 eexists; split; [|reflexivity]; simpl; auto|].
  rewrite rows_of_eq_email.
  destruct (filter _ (users s)) as [|user [|other rest]] eqn:E; simpl;
    try (left; do 2 eexists; split; [|reflexivity]; simpl; now auto).
  assert (Huser : In user (users s)).
  { eapply proj1, filter_In. rewrite E. now left. }
  destruct (User.active user); simpl;
    [|left; do 2 eexists; split; [|reflexivity]; simpl; now auto].
  destruct (User.password user =? text (Credentials.password c)); simpl;
    [|left; do 2 eexists; split; [|reflexivity]; simpl; now auto].
  right. exists user. split; [assumption|reflexivity].
Qed.

Lemma filter_email_public (e : string) (l1 l2 : list User.t) :
  map projection l1 = map projection l2 ->
  map projection (filter (fun user => User.email user =? e) l1) =
  map projection (filter (fun user => User.email user =? e) l2).
Proof.
  revert l2. induction l1 as [|x l1 IH]; intros [|y l2]; simpl;
    try discriminate; [reflexivity|].
  intros [= Hid Hemail Hrole Hl]. rewrite Hemail.
  destruct (User.email y =? e); simpl; [|now apply IH].
  unfold projection at 1 3. rewrite Hid, Hemail, Hrole. f_equal.
  now apply IH.
Qed.

(** C10. Whatever the request and the store, the body of the login
    response is either an error message from a fixed list or the
    [{ id, email, role }] of a stored user, and the session is either left
    as it was or set to that same object: no key [password] or [active]
    occurs in a body.  Beyond the status code, the answer does not depend
    on stored passwords or active flags: two stores whose users agree on
    id, email and role give, when the status is the same, the same body
    and the same session. *)
Theorem login_discloses_only_projection :
  forall (c : Credentials.t) (sess : Auth.session) (s : store),
    let r := fst (fst (Auth.post_login c sess s)) in
    let sess' := snd (fst (Auth.post_login c sess s)) in
    ((exists msg, In msg login_errors /\ body r = p_error msg /\ sess' = sess) \/
     (exists user,
        In user (users s) /\ body r = p_user (projection user) /\
        sess' = Some (projection user))) /\
    incl (keys (to_json (body r))) ["error"; "id"; "email"; "role"] /\
    ~ In "password" (keys (to_json (body r))) /\
    ~ In "active" (keys (to_json (body r))) /\
    (forall s2 : store,
       map projection (users s) = map projection (users s2) ->
       failing s = failing s2 ->
       status r = status (fst (fst (Auth.post_login c sess s2))) ->
       fst (Auth.post_login c sess s) = fst (Auth.post_login c sess s2)).
Proof.
  intros c sess s. cbv zeta.
  assert (Hkeys :
    incl (keys (to_json (body (fst (fst (Auth.post_login c sess s))))))
      ["error"; "id"; "email"; "role"]).
  { destruct (post_login_cases c sess s)
      as [(code & msg & _ & ->)|(user & _ & ->)]; simpl;
      intros k Hk; simpl in *; tauto. }
  split; [|split; [exact Hkeys|split; [|split]]].
  - destruct (post_login_cases c sess s)
      as [(code & msg & Hmsg & ->)|(user & Huser & ->)]; simpl.
    + left. exists msg. auto.
    + right. exists user. auto.
  - intros H. apply Hkeys in H. simpl in H. intuition discriminate.
  - intros H. apply Hkeys in H. simpl in H. intuition discriminate.
  - intros s2 Hpub _.
    unfold Auth.post_login, Supabase.select_user.
    destruct (negb (truthy (Credentials.email c)) ||
              negb (truthy (Credentials.password c))); [reflexivity|].
    simpl. rewrite !rows_of_eq_email.
    pose proof (filter_email_public (text (Credentials.email c)) _ _ Hpub)
      as Hrows.
    set (l1 := filter _ (users s)) in *.
    set (l2 := filter _ (users s2)) in *.
    destruct (fails s), (fails s2); simpl.
    + reflexivity.
    + destruct l2 as [|u2 [|v2 r2]]; simpl;
        try discriminate; try (intros _; reflexivity).
      destruct (User.active u2); simpl; try discriminate.
      destruct (User.password u2 =? _); simpl; discriminate.
    + destruct l1 as [|u1 [|v1 r1]]; simpl;
        try discriminate; try (intros _; reflexivity).
      destruct (User.active u1); simpl; try discriminate.
      destruct (User.password u1 =? _); simpl; discriminate.
    + destruct l1 as [|u1 [|v1 r1]]; destruct l2 as [|u2 [|v2 r2]];
        try discriminate; try reflexivity.
      simpl in Hrows. injection Hrows as Hid Hemail Hrole. simpl.
      destruct (User.active u1), (User.active u2); simpl; try reflexivity;
        destruct (User.password u1 =? text (Credentials.password c));
        destruct (User.password u2 =? text (Credentials.password c));
        simpl; try reflexivity; try discriminate.
      intros _. now rewrite Hid, Hemail, Hrole.
Qed.

Lemma login_discloses_only_projection_witness :
  fst (Auth.post_login Sample.ana_typo (Some Sample.leo) Sample.db) =
  fst (Auth.post_login Sample.ana_typo (Some Sample.leo) Sample.rotated).
Proof.
  apply (login_discloses_only_projection Sample.ana_typo (Some Sample.leo)
           Sample.db); reflexivity.
Defined.

(** * Further properties *)

Unset Implicit Arguments.

(** ** What is written *)

Lemma present_filled (f : field) : truthy f = true -> text f <> "".
Proof.
  destruct f as [v|]; simpl; [|discriminate].
  intros H ->. discriminate.
Qed.

Lemma written_filled (blank : field) (b : Body.t) :
  incomplete b = false -> filled (written blank b).
Proof.
  intros H. apply complete_iff in H. destruct H as (Hd & Ht & Hti).
  repeat split; simpl; now apply present_filled.
Qed.

Lemma or_else_null (f : field) : or_else f None <> Some "".
Proof.
  unfold or_else. destruct f as [v|]; simpl; [|discriminate].
  destruct (v =? "") eqn:E; simpl; [discriminate|].
  apply String.eqb_neq in E. congruence.
Qed.

Lemma or_else_blank (f : field) : or_else f (Some "") <> None.
Proof.
  unfold or_else. destruct f as [v|]; simpl; [|discriminate].
  destruct (v =? ""); discriminate.
Qed.

Lemma written_blank_is_null (b : Body.t) :
  incomplete b = false -> blank_is_null (written None b).
Proof.
  intros H. split; [now apply written_filled|].
  repeat split; apply or_else_null.
Qed.

Lemma written_null_is_blank (b : Body.t) :
  incomplete b = false -> null_is_blank (written (Some "") b).
Proof.
  intros H. split; [now apply written_filled|].
  repeat split; apply or_else_blank.
Qed.

(** ** What a request does to the store *)

Lemma once (ok : Fields.t -> Prop) (s s' : store) :
  change ok s s' -> effect ok s s'.
Proof. intros H. eapply and_then; [apply untouched|exact H]. Qed.

Lemma auth_get_events_effect (ok : Fields.t -> Prop) (sess : Auth.session)
  (q : Range.t) (s : store) :
  effect ok s (snd (Auth.route_get_events sess q s)).
Proof.
  unfold Auth.route_get_events, Auth.requireAuth, Auth.get_events,
    Supabase.select_events.
  destruct sess as [u|]; [|apply untouched].
  destruct (negb (truthy (Range.start q)) || negb (truthy (Range.end_ q)));
    [apply untouched|].
  simpl. destruct (fails s); simpl; apply once, asked.
Qed.

Lemma auth_post_events_effect (sess : Auth.session) (b : Body.t) (s : store) :
  effect blank_is_null s (snd (Auth.route_post_events sess b s)).
Proof.
  unfold Auth.route_post_events, Auth.requireAuth, Auth.post_events,
    Supabase.insert.
  destruct sess as [u|]; [|apply untouched].
  destruct (incomplete b) eqn:Hb; [apply untouched|].
  simpl. destruct (fails s); simpl; apply once; [apply asked|].
  apply (@inserted blank_is_null s _ _ _ (written_blank_is_null b Hb)).
Qed.

Lemma auth_put_events_effect (sess : Auth.session) (id : N) (b : Body.t)
  (s : store) :
  effect blank_is_null s (snd (Auth.route_put_events sess id b s)).
Proof.
  unfold Auth.route_put_events, Auth.requireAuth, Auth.put_events,
    Supabase.update.
  destruct sess as [u|]; [|apply untouched].
  destruct (incomplete b) eqn:Hb; [apply untouched|].
  simpl. destruct (fails s); simpl; [apply once, asked|].
  match goal with
  | |- context [Supabase.maybeSingle ?l] =>
      destruct (Supabase.maybeSingle l) as [[row|] [err|] n]
  end; simpl; apply once;
    apply (@rewritten blank_is_null s _ _ _ (written_blank_is_null b Hb)).
Qed.

Lemma auth_delete_events_effect (ok : Fields.t -> Prop) (sess : Auth.session)
  (id : N) (s : store) :
  effect ok s (snd (Auth.route_delete_events sess id s)).
Proof.
  unfold Auth.route_delete_events, Auth.requireAdmin, Auth.delete_events,
    Supabase.delete.
  destruct sess as [u|]; [|apply untouched].
  destruct (negb (SessionUser.role u =? "admin")); [apply untouched|].
  simpl. destruct (fails s); simpl; [apply once, asked|].
  match goal with
  | |- context [N.of_nat ?n] => destruct (N.of_nat n)
  end; simpl; apply once, erased.
Qed.

Lemma post_login_effect (ok : Fields.t -> Prop) (c : Credentials.t)
  (sess : Auth.session) (s : store) :
  effect ok s (snd (Auth.post_login c sess s)).
Proof.
  unfold Auth.post_login, Supabase.select_user.
  destruct (negb (truthy (Credentials.email c)) ||
            negb (truthy (Credentials.password c))); [apply untouched|].
  simpl. destruct (fails s); simpl; [apply once, asked|].
  match goal with
  | |- context [Supabase.maybeSingle ?l] =>
      destruct (Supabase.maybeSingle l) as [[user|] [err|] n]
  end; simpl; try apply once, asked.
  destruct (User.active user); simpl; [|apply once, asked].
  destruct (User.password user =? _); simpl; apply once, asked.
Qed.

Lemma noauth_get_events_effect (ok : Fields.t -> Prop) (q : Range.t)
  (s : store) :
  effect ok s (snd (NoAuth.get_events q s)).
Proof.
  unfold NoAuth.get_events, Sqlite.all_in_range.
  destruct (negb (truthy (Range.start q)) || negb (truthy (Range.end_ q)));
    [apply untouched|].
  simpl. destruct (fails s); simpl; apply once, asked.
Qed.

Lemma noauth_post_events_effect (body : option Body.t) (s : store) :
  effect null_is_blank s (snd (NoAuth.post_events body s)).
Proof.
  unfold NoAuth.post_events, Sqlite.insert, Sqlite.get.
  destruct body as [b|]; [|apply untouched].
  destruct (incomplete b) eqn:Hb; [apply untouched|].
  simpl. destruct (fails s); simpl; [apply once, asked|].
  destruct (fails _); simpl; (eapply and_then; [|apply asked]); apply once;
    apply (@inserted null_is_blank s _ _ _ (written_null_is_blank b Hb)).
Qed.

Lemma noauth_put_events_effect (id : N) (body : option Body.t) (s : store) :
  effect null_is_blank s (snd (NoAuth.put_events id body s)).
Proof.
  unfold NoAuth.put_events, Sqlite.update, Sqlite.get.
  destruct body as [b|]; [|apply untouched].
  destruct (incomplete b) eqn:Hb; [apply untouched|].
  simpl. destruct (fails s); simpl; [apply once, asked|].
  match goal with
  | |- context [(Sqlite.count ?l =? 0)%N] =>
      destruct (Sqlite.count l =? 0)%N
  end; simpl.
  - apply once.
    apply (@rewritten null_is_blank s _ _ _ (written_null_is_blank b Hb)).
  - destruct (fails _); simpl; (eapply and_then; [|apply asked]); apply once;
      apply (@rewritten null_is_blank s _ _ _ (written_null_is_blank b Hb)).
Qed.

Lemma noauth_delete_events_effect (ok : Fields.t -> Prop) (id : N)
  (s : store) :
  effect ok s (snd (NoAuth.delete_events id s)).
Proof.
  unfold NoAuth.delete_events, Sqlite.delete.
  simpl. destruct (fails s); simpl; [apply once, asked|].
  match goal with
  | |- context [(Sqlite.count ?l =? 0)%N] =>
      destruct (Sqlite.count l =? 0)%N
  end; simpl; apply once, erased.
Qed.

(** ** What every call keeps *)

Lemma fields_of_create (i : N) (v : Fields.t) (at_ : N) (by_ : option N) :
  fields_of (Event.create i v at_ by_) = v.
Proof. now destruct v. Qed.

Lemma fields_of_set (v : Fields.t) (e : Event.t) :
  fields_of (Event.set v e) = v.
Proof. now destruct v. Qed.

Lemma ids_rewritten (hit : Event.t -> bool) (v : Fields.t) (l : list Event.t) :
  map Event.id (map (fun r => if hit r then Event.set v r else r) l) =
  map Event.id l.
Proof.
  rewrite map_map. apply map_ext. intros r. now destruct (hit r).
Qed.

Lemma ids_erased (hit : Event.t -> bool) (l : list Event.t) :
  NoDup (map Event.id l) ->
  NoDup (map Event.id (filter (fun r => negb (hit r)) l)).
Proof.
  induction l as [|x l IH]; simpl; [constructor|].
  intros Hnd. inversion_clear Hnd as [|? ? Hx Hl].
  destruct (hit x); simpl; [now apply IH|].
  constructor; [|now apply IH].
  intros Hin. apply Hx. apply in_map_iff in Hin.
  destruct Hin as (e & He & Hf). apply filter_In in Hf.
  rewrite <- He. apply in_map, Hf.
Qed.

Lemma issued_iff (s : store) :
  (forall e, In e (events s) -> (Event.id e < next_id s)%N) <->
  (forall i, In i (ids s) -> (i < next_id s)%N).
Proof.
  unfold ids. split.
  - intros H i Hi. apply in_map_iff in Hi. destruct Hi as (e & <- & He). auto.
  - intros H e He. apply H. now apply in_map.
Qed.

Lemma change_frame (ok : Fields.t -> Prop) (s s' : store) :
  change ok s s' ->
  (failing s = false -> failing s' = false) /\ users s' = users s /\
  now s' = now s /\ (next_id s <= next_id s')%N.
Proof.
  intros []; (split; [intros Hf; answering Hf|]); simpl; repeat split; lia.
Qed.

Lemma change_consistent (ok : Fields.t -> Prop) (s s' : store) :
  change ok s s' -> consistent s -> consistent s'.
Proof.
  intros [c|c v by_ Hv|c hit v Hv|c hit] Hc.
  - destruct Hc as [Hu Hi He]. now split.
  - eapply created_consistent; [exact Hc| |reflexivity|reflexivity|reflexivity].
    reflexivity.
  - destruct Hc as [Hu Hi He]. split; [| |exact He].
    + unfold ids in *. simpl. now rewrite ids_rewritten.
    + pose proof (proj1 (issued_iff s) Hi) as Hi'.
      apply (proj2 (issued_iff _)). unfold ids in *. simpl.
      now rewrite ids_rewritten.
  - destruct Hc as [Hu Hi He]. split; [| |exact He].
    + unfold ids in *. simpl. now apply ids_erased.
    + simpl. intros e He'. apply filter_In in He'. apply Hi, He'.
Qed.

Lemma change_rows (ok : Fields.t -> Prop) (s s' : store) :
  change ok s s' -> rows_are ok s -> rows_are ok s'.
Proof.
  unfold rows_are. intros [c|c v by_ Hv|c hit v Hv|c hit] H e; simpl.
  - apply H.
  - intros [He|[<-|[]]]%in_app_or; [now apply H|].
    now rewrite fields_of_create.
  - intros He. apply in_map_iff in He. destruct He as (r & <- & Hr).
    destruct (hit r); [now rewrite fields_of_set|now apply H].
  - intros He. apply filter_In in He. apply H, He.
Qed.

Lemma effect_frame (ok : Fields.t -> Prop) (s s' : store) :
  effect ok s s' ->
  (failing s = false -> failing s' = false) /\ users s' = users s /\
  now s' = now s /\ (next_id s <= next_id s')%N.
Proof.
  induction 1 as [|s1 s2 _ IH Hch]; [repeat split; trivial; lia|].
  destruct IH as (? & ? & ? & ?).
  destruct (change_frame _ _ _ Hch) as (? & ? & ? & ?).
  repeat split; try congruence; [auto|lia].
Qed.

Lemma effect_consistent (ok : Fields.t -> Prop) (s s' : store) :
  effect ok s s' -> consistent s -> consistent s'.
Proof.
  induction 1 as [|s1 s2 _ IH Hch]; [trivial|].
  intros Hc. eapply change_consistent; eauto.
Qed.

Lemma effect_rows (ok : Fields.t -> Prop) (s s' : store) :
  effect ok s s' -> rows_are ok s -> rows_are ok s'.
Proof.
  induction 1 as [|s1 s2 _ IH Hch]; [trivial|].
  intros Hr. eapply change_rows; eauto.
Qed.

(** X2. Keys survive every request.  If ids and emails are unique and
    every id is below the next one, the same holds after any request to
    any route of either variant, whatever the session, the parameters and
    the body, and whether the store answers or not. *)
Theorem routes_keep_keys :
  forall (sess : Auth.session) (q : Range.t) (b : Body.t)
         (body : option Body.t) (id : N) (c : Credentials.t) (s : store),
    consistent s ->
    consistent (snd (Auth.post_login c sess s)) /\
    consistent (snd (Auth.post_logout sess s)) /\
    consistent (snd (Auth.route_get_events sess q s)) /\
    consistent (snd (Auth.route_post_events sess b s)) /\
    consistent (snd (Auth.route_put_events sess id b s)) /\
    consistent (snd (Auth.route_delete_events sess id s)) /\
    consistent (snd (NoAuth.get_events q s)) /\
    consistent (snd (NoAuth.post_events body s)) /\
    consistent (snd (NoAuth.put_events id body s)) /\
    consistent (snd (NoAuth.delete_events id s)).
Proof.
  intros sess q b body id c s Hc.
  repeat match goal with |- _ /\ _ => split end; try exact Hc;
    eapply effect_consistent; try exact Hc.
  - apply (post_login_effect filled).
  - apply (auth_get_events_effect filled).
  - apply auth_post_events_effect.
  - apply auth_put_events_effect.
  - apply (auth_delete_events_effect filled).
  - apply (noauth_get_events_effect filled).
  - apply noauth_post_events_effect.
  - apply noauth_put_events_effect.
  - apply (noauth_delete_events_effect filled).
Qed.

Lemma routes_keep_keys_witness :
  consistent (snd (Auth.route_post_events (Some Sample.leo) Sample.launch
                     Sample.db)) /\
  consistent (snd (NoAuth.post_events (Some Sample.launch) Sample.db)) /\
  consistent (snd (NoAuth.delete_events 2 Sample.db)).
Proof.
  destruct (@routes_keep_keys (Some Sample.leo) Sample.june Sample.launch
              (Some Sample.launch) 2 Sample.ana_login Sample.db
              sample_db_consistent)
    as (_ & _ & _ & H1 & _ & _ & _ & H2 & _ & H3).
  split; [|split]; assumption.
Defined.

(** X3. Validation shows in the data.  If every row has non-empty
    [date], [time] and [title] and no optional column equal to the empty
    string, the same holds after any request to the Supabase routes; if
    every row has non-empty required columns and no null optional column,
    the same holds after any request to the SQLite routes. *)
Theorem routes_keep_rows_tidy :
  forall (sess : Auth.session) (q : Range.t) (b : Body.t)
         (body : option Body.t) (id : N) (s : store),
    (rows_are blank_is_null s ->
     rows_are blank_is_null (snd (Auth.route_get_events sess q s)) /\
     rows_are blank_is_null (snd (Auth.route_post_events sess b s)) /\
     rows_are blank_is_null (snd (Auth.route_put_events sess id b s)) /\
     rows_are blank_is_null (snd (Auth.route_delete_events sess id s))) /\
    (rows_are null_is_blank s ->
     rows_are null_is_blank (snd (NoAuth.get_events q s)) /\
     rows_are null_is_blank (snd (NoAuth.post_events body s)) /\
     rows_are null_is_blank (snd (NoAuth.put_events id body s)) /\
     rows_are null_is_blank (snd (NoAuth.delete_events id s))).
Proof.
  intros sess q b body id s. split; intros H;
    repeat match goal with |- _ /\ _ => split end;
    eapply effect_rows; try exact H.
  - apply auth_get_events_effect.
  - apply auth_post_events_effect.
  - apply auth_put_events_effect.
  - apply auth_delete_events_effect.
  - apply noauth_get_events_effect.
  - apply noauth_post_events_effect.
  - apply noauth_put_events_effect.
  - apply noauth_delete_events_effect.
Qed.

Lemma sample_db_tidy : rows_are blank_is_null Sample.db.
Proof.
  intros e [<-|[<-|[<-|[]]]]; repeat split; simpl; discriminate.
Qed.

Lemma sample_empty_tidy : rows_are null_is_blank Sample.empty.
Proof. intros e []. Qed.

Lemma routes_keep_rows_tidy_witness :
  rows_are blank_is_null
    (snd (Auth.route_put_events (Some Sample.leo) 1 Sample.blank_channel
            Sample.db)) /\
  rows_are null_is_blank (snd (NoAuth.post_events (Some Sample.launch) Sample.empty)).
Proof.
  split.
  - apply (proj1 (routes_keep_rows_tidy (Some Sample.leo) Sample.june
                    Sample.blank_channel None 1 Sample.db) sample_db_tidy).
  - apply (proj2 (routes_keep_rows_tidy None Sample.june Sample.launch
                    (Some Sample.launch) 1 Sample.empty) sample_empty_tidy).
Defined.

(** ** Sessions and guards *)

Lemma post_login_outcome (c : Credentials.t) (sess : Auth.session)
  (s : store) :
  (exists code msg,
     In code [400; 401; 500]%N /\
     fst (Auth.post_login c sess s) = (res code (p_error msg), sess)) \/
  (exists user,
     In user (users s) /\
     User.email user = text (Credentials.email c) /\
     User.active user = true /\
     User.password user = text (Credentials.password c) /\
     present (Credentials.email c) /\ present (Credentials.password c) /\
     fst (Auth.post_login c sess s) =
       (res 200 (p_user (projection user)), Some (projection user))).
Proof.
  unfold Auth.post_login, Supabase.select_user, present.
  destruct (truthy (Credentials.email c)); simpl;
    [|left; do 2 eexists; split; [|reflexivity]; simpl; now auto].
  destruct (truthy (Credentials.password c)); simpl;
    [|left; do 2 eexists; split; [|reflexivity]; simpl; now auto].
  destruct (fails s);
    [left; do 2 eexists; split; [|reflexivity]; simpl; now auto|].
  rewrite rows_of_eq_email.
  destruct (filter _ (users s)) as [|user [|other rest]] eqn:E; simpl;
    try (left; do 2 eexists; split; [|reflexivity]; simpl; now auto).
  assert (Huser : In user
            (filter (fun u => User.email u =? text (Credentials.email c))
               (users s))) by (rewrite E; now left).
  apply filter_In in Huser. destruct Huser as [Huser Hemail].
  apply String.eqb_eq in Hemail.
  destruct (User.active user) eqn:Ha; simpl;
    [|left; do 2 eexists; split; [|reflexivity]; simpl; now auto].
  destruct (User.password user =? text (Credentials.password c)) eqn:Hp;
    simpl; [|left; do 2 eexists; split; [|reflexivity]; simpl; now auto].
  apply String.eqb_eq in Hp.
  right. exists user. repeat split; assumption.
Qed.

(** X4. A login with the email or the password missing or empty is
    answered with 400; the users table is not consulted and the session
    stays as it was. *)
Theorem login_requires_both_fields :
  forall (c : Credentials.t) (sess : Auth.session) (s : store),
    missing (Credentials.email c) \/ missing (Credentials.password c) ->
    Auth.post_login c sess s =
    (res 400 (p_error "Email y contraseña son obligatorios."), sess, s).
Proof.
  intros c sess s H. unfold Auth.post_login.
  assert (negb (truthy (Credentials.email c)) ||
          negb (truthy (Credentials.password c)) = true) as ->;
    [|reflexivity].
  unfold missing in H. destruct H as [-> | ->]; simpl;
    [reflexivity|apply orb_true_r].
Qed.

Lemma login_requires_both_fields_witness :
  Auth.post_login Fixture.no_password (Some Sample.leo) Sample.db =
  (res 400 (p_error "Email y contraseña son obligatorios."),
   Some Sample.leo, Sample.db).
Proof.
  apply (login_requires_both_fields Fixture.no_password (Some Sample.leo)
           Sample.db).
  right. reflexivity.
Defined.

Lemma login_ok_session (c : Credentials.t) (sess : Auth.session) (s : store) :
  (status (fst (fst (Auth.post_login c sess s))) <> 200%N ->
   snd (fst (Auth.post_login c sess s)) = sess) /\
  (status (fst (fst (Auth.post_login c sess s))) = 200%N ->
   exists user,
     In user (users s) /\
     snd (fst (Auth.post_login c sess s)) = Some (projection user)).
Proof.
  destruct (post_login_outcome c sess s)
    as [(code & msg & Hcode & ->)
       |(user & Huser & Hemail & Ha & Hp & He & Hpw & ->)]; simpl.
  - split; [reflexivity|]. intros ->. simpl in Hcode.
    intuition discriminate.
  - split; [congruence|]. intros _. exists user. auto.
Qed.

(** X5. Whatever the store holds, even with emails that are not
    unique, a login changes the session only when it answers 200, and it
    answers 200 only for an active stored user with that email whose
    stored password is the submitted one; the session is then that
    user's [{ id, email, role }].  Any other answer leaves the session,
    including one set by an earlier login, as it was. *)
Theorem login_sets_session_only_on_success :
  forall (c : Credentials.t) (sess : Auth.session) (s : store),
    let r := fst (fst (Auth.post_login c sess s)) in
    let sess' := snd (fst (Auth.post_login c sess s)) in
    (status r <> 200%N -> sess' = sess) /\
    (status r = 200%N ->
     exists user,
       In user (users s) /\
       Some (User.email user) = Credentials.email c /\
       Some (User.password user) = Credentials.password c /\
       User.active user = true /\
       sess' = Some (projection user)).
Proof.
  intros c sess s. cbv zeta.
  destruct (post_login_outcome c sess s)
    as [(code & msg & Hcode & ->)
       |(user & Huser & Hemail & Ha & Hp & He & Hpw & ->)]; simpl.
  - split; [reflexivity|]. intros ->. simpl in Hcode.
    intuition discriminate.
  - split; [congruence|]. intros _. exists user.
    rewrite Hemail, Hp, <- !present_text by assumption. auto.
Qed.

Lemma login_sets_session_only_on_success_witness :
  snd (fst (Auth.post_login Sample.ana_typo (Some Sample.leo) Sample.db)) =
    Some Sample.leo /\
  exists user,
    In user (users Sample.db) /\
    User.active user = true /\
    snd (fst (Auth.post_login Sample.ana_login (Some Sample.leo) Sample.db)) =
      Some (projection user).
Proof.
  split.
  - apply (proj1 (login_sets_session_only_on_success Sample.ana_typo
                    (Some Sample.leo) Sample.db)).
    simpl. discriminate.
  - destruct (proj2 (login_sets_session_only_on_success Sample.ana_login
                       (Some Sample.leo) Sample.db) eq_refl)
      as (user & Hu & _ & _ & Ha & Hs).
    exists user. auto.
Defined.

(** Logout always answers 200 with the success flag, ends the
    session whatever it was and leaves the store alone; after it, list,
    create, update and delete of the Supabase variant answer 401 and hand
    back the store as it was, calls included. *)
Theorem logout_ends_session :
  forall (sess : Auth.session) (q : Range.t) (b : Body.t) (id : N)
         (s : store),
    let sess' := snd (fst (Auth.post_logout sess s)) in
    let s' := snd (Auth.post_logout sess s) in
    fst (fst (Auth.post_logout sess s)) = res 200 p_success /\
    s' = s /\
    Auth.route_get_events sess' q s' =
      (res 401 (p_error "No autenticado"), s) /\
    Auth.route_post_events sess' b s' =
      (res 401 (p_error "No autenticado"), s) /\
    Auth.route_put_events sess' id b s' =
      (res 401 (p_error "No autenticado"), s) /\
    Auth.route_delete_events sess' id s' =
      (res 401 (p_error "No autenticado"), s).
Proof. intros. repeat split. Qed.

(** X7. What a login unlocks.  After a login answered with 200 the
    session passes [requireAuth], so list, create and update run their
    handlers; delete runs its handler when the stored role of the user is
    [admin] and is refused with 403, the store untouched, for any other
    role. *)
Theorem login_then_guards :
  forall (c : Credentials.t) (sess : Auth.session) (s : store)
         (q : Range.t) (b : Body.t) (id : N),
    status (fst (fst (Auth.post_login c sess s))) = 200%N ->
    let sess' := snd (fst (Auth.post_login c sess s)) in
    let s' := snd (Auth.post_login c sess s) in
    exists user,
      In user (users s) /\ sess' = Some (projection user) /\
      Auth.route_get_events sess' q s' = Auth.get_events q s' /\
      Auth.route_post_events sess' b s' = Auth.post_events sess' b s' /\
      Auth.route_put_events sess' id b s' = Auth.put_events id b s' /\
      (User.role user = "admin" ->
       Auth.route_delete_events sess' id s' = Auth.delete_events id s') /\
      (User.role user <> "admin" ->
       Auth.route_delete_events sess' id s' =
         (res 403 (p_error "No autorizado (se requiere admin)"), s')).
Proof.
  intros c sess s q b id H200. cbv zeta.
  destruct (proj2 (login_ok_session c sess s) H200) as (user & Huser & Hs).
  exists user. rewrite Hs. unfold Auth.route_delete_events, Auth.requireAdmin.
  simpl. repeat split; try assumption.
  - intros ->. reflexivity.
  - intros Hrole. apply String.eqb_neq in Hrole. now rewrite Hrole.
Qed.

Lemma login_then_guards_witness :
  exists user,
    In user (users Sample.db) /\
    snd (fst (Auth.post_login Fixture.leo_login None Sample.db)) =
      Some (projection user) /\
    (User.role user <> "admin" ->
     Auth.route_delete_events
       (snd (fst (Auth.post_login Fixture.leo_login None Sample.db))) 2
       (snd (Auth.post_login Fixture.leo_login None Sample.db)) =
     (res 403 (p_error "No autorizado (se requiere admin)"),
      snd (Auth.post_login Fixture.leo_login None Sample.db))).
Proof.
  destruct (@login_then_guards Fixture.leo_login None Sample.db Sample.june
              Sample.launch 2 eq_refl)
    as (user & Hu & Hs & _ & _ & _ & _ & H403).
  exists user. auto.
Defined.

(** ** When the store does not answer *)

Ltac answer_500 Hf :=
  simpl; rewrite ?Hf; simpl; rewrite ?Hf; simpl;
  eexists; split; [reflexivity|repeat split].

(** X1. A failure of the store, call by call.  When the first call an
    operation makes to the store is answered with an error (Supabase) or
    throws (SQLite), the operation answers 500 with an error body and the
    tables are as before; a login in that situation also leaves the
    session as it was.  The SQLite create and update make a second call,
    which reads the row back: when the first call is answered and the
    second throws, they answer 500 as well, but the row stays written. *)
Theorem store_failure_is_500 :
  forall (u : SessionUser.t) (sess : Auth.session) (q : Range.t)
         (b : Body.t) (id : N) (c : Credentials.t) (s : store),
    (fails s = true ->
     (present (Range.start q) -> present (Range.end_ q) ->
      failed s (Auth.route_get_events (Some u) q s) /\
      failed s (NoAuth.get_events q s)) /\
     (present (Body.date b) -> present (Body.time b) ->
      present (Body.title b) ->
      failed s (Auth.route_post_events (Some u) b s) /\
      failed s (NoAuth.post_events (Some b) s) /\
      failed s (Auth.route_put_events (Some u) id b s) /\
      failed s (NoAuth.put_events id (Some b) s)) /\
     (SessionUser.role u = "admin" ->
      failed s (Auth.route_delete_events (Some u) id s)) /\
     failed s (NoAuth.delete_events id s) /\
     (present (Credentials.email c) -> present (Credentials.password c) ->
      failed s (fst (fst (Auth.post_login c sess s)),
                snd (Auth.post_login c sess s)) /\
      snd (fst (Auth.post_login c sess s)) = sess)) /\
    (fails s = false -> fails_next s = true ->
     present (Body.date b) -> present (Body.time b) ->
     present (Body.title b) ->
     (fst (NoAuth.post_events (Some b) s) =
        res 500 (p_error "Error al crear evento") /\
      events (snd (NoAuth.post_events (Some b) s)) =
        (events s ++
         [Event.create (next_id s) (written (Some "") b) (now s) None])%list) /\
     (In id (ids s) ->
      fst (NoAuth.put_events id (Some b) s) =
        res 500 (p_error "Error al actualizar evento") /\
      events (snd (NoAuth.put_events id (Some b) s)) =
        map (fun r => if (Event.id r =? id)%N
                      then Event.set (written (Some "") b) r else r)
          (events s))).
Proof.
  intros u sess q b id c s. split.
  - intros Hf. unfold failed, present.
    split; [|split; [|split; [|split]]].
    + intros Hs He.
      unfold Auth.route_get_events, Auth.requireAuth, Auth.get_events,
        NoAuth.get_events, Supabase.select_events, Sqlite.all_in_range.
      rewrite Hs, He. split; answer_500 Hf.
    + intros Hd Ht Hti.
      assert (Hb : incomplete b = false) by now apply complete_iff.
      unfold Auth.route_post_events, Auth.route_put_events, Auth.requireAuth,
        Auth.post_events, Auth.put_events, NoAuth.post_events,
        NoAuth.put_events, Supabase.insert, Supabase.update, Sqlite.insert,
        Sqlite.update.
      rewrite Hb. repeat split; answer_500 Hf.
    + intros Hu.
      unfold Auth.route_delete_events, Auth.requireAdmin, Auth.delete_events,
        Supabase.delete.
      rewrite Hu. answer_500 Hf.
    + unfold NoAuth.delete_events, Sqlite.delete. answer_500 Hf.
    + intros He Hp. unfold Auth.post_login, Supabase.select_user.
      rewrite He, Hp. simpl. rewrite Hf. simpl.
      split; [eexists; split; [reflexivity|repeat split]|reflexivity].
  - intros Hf Hnext Hd Ht Hti.
    assert (Hb : incomplete b = false) by now apply complete_iff.
    unfold NoAuth.post_events, NoAuth.put_events, Sqlite.insert,
      Sqlite.update, Sqlite.get.
    rewrite Hb. simpl. rewrite Hf. simpl. split.
    + match goal with
      | |- context [fails ?x] => change (fails x) with (fails_next s)
      end.
      rewrite Hnext. simpl. auto.
    + intros Hid.
      destruct (filter (fun r => (Event.id r =? id)%N) (events s))
        as [|old rest] eqn:E.
      { exfalso. unfold ids in Hid. apply in_map_iff in Hid.
        destruct Hid as (e & He & Hin).
        assert (Hhit : In e (filter (fun r => (Event.id r =? id)%N)
                               (events s))).
        { apply filter_In. split; [assumption|]. now apply N.eqb_eq. }
        rewrite E in Hhit. destruct Hhit. }
      simpl.
      match goal with
      | |- context [fails ?x] => change (fails x) with (fails_next s)
      end.
      rewrite Hnext. simpl. auto.
Qed.

Lemma store_failure_is_500_witness :
  (failed Fixture.down
     (Auth.route_put_events (Some Sample.leo) 1 Sample.launch Fixture.down) /\
   failed Fixture.down (NoAuth.delete_events 1 Fixture.down) /\
   snd (fst (Auth.post_login Sample.ana_login None Fixture.down)) = None) /\
  (fst (NoAuth.post_events (Some Sample.launch) Fixture.flaky) =
     res 500 (p_error "Error al crear evento") /\
   events (snd (NoAuth.post_events (Some Sample.launch) Fixture.flaky)) =
     (events Fixture.flaky ++
      [Event.create 4 (written (Some "") Sample.launch) 20 None])%list).
Proof.
  split.
  - destruct (proj1 (store_failure_is_500 Sample.leo None Sample.june
                       Sample.launch 1 Sample.ana_login Fixture.down) eq_refl)
      as (_ & Hw & _ & Hd & Hl).
    destruct (Hw eq_refl eq_refl eq_refl) as (_ & _ & Hput & _).
    destruct (Hl eq_refl eq_refl) as (_ & Hsess).
    repeat split; assumption.
  - apply (proj2 (store_failure_is_500 Sample.leo None Sample.june
                    Sample.launch 1 Sample.ana_login Fixture.flaky)
             eq_refl eq_refl eq_refl eq_refl eq_refl).
Defined.

(** ** Update and delete, step by step *)

Lemma hit_nil_iff (id : N) (l : list Event.t) :
  filter (fun r => (Event.id r =? id)%N) l = [] <-> ~ In id (map Event.id l).
Proof.
  split.
  - intros H Hin. apply in_map_iff in Hin. destruct Hin as (e & He & Hl).
    assert (Hf : In e (filter (fun r => (Event.id r =? id)%N) l)).
    { apply filter_In. split; [assumption|]. now apply N.eqb_eq. }
    rewrite H in Hf. destruct Hf.
  - apply (filter_key_absent Event.id N.eqb N.eqb_eq).
Qed.

Lemma auth_put_events_run (id : N) (b : Body.t) (s : store) :
  incomplete b = false -> fails s = false ->
  Auth.put_events id b s =
  (match filter (fun r => (Event.id r =? id)%N) (events s) with
   | [] => res 404 (p_error "Evento no encontrado")
   | [old] => res 200 (p_event (Some (Event.set (written None b) old)))
   | _ => res 500 (p_error "Error al actualizar evento")
   end,
   with_events
     (map (fun r => if (Event.id r =? id)%N
                    then Event.set (written None b) r else r) (events s))
     (log (UpdateEvent id (written None b)) s)).
Proof.
  intros Hb Hf. unfold Auth.put_events, Supabase.update.
  rewrite Hb. simpl. rewrite Hf.
  rewrite (filter_ext _ _ (matches_eq_id id)).
  rewrite (map_ext _ _ (fun r => f_equal (fun c : bool =>
             if c then Event.set _ r else r) (matches_eq_id id r))).
  now destruct (filter _ (events s)) as [|old [|other rest]].
Qed.

Lemma noauth_put_events_run (id : N) (b : Body.t) (s : store) :
  incomplete b = false -> failing s = false ->
  let rows :=
    map (fun r => if (Event.id r =? id)%N
                  then Event.set (written (Some "") b) r else r) (events s) in
  let s1 := with_events rows (log (UpdateEvent id (written (Some "") b)) s) in
  NoAuth.put_events id (Some b) s =
  match filter (fun r => (Event.id r =? id)%N) (events s) with
  | [] => (res 404 (p_error "Evento no encontrado"), s1)
  | _ => (res 200 (p_event (find (fun r => (Event.id r =? id)%N) rows)),
          log (SelectEvent id) s1)
  end.
Proof.
  intros Hb Hf. cbv zeta. unfold NoAuth.put_events, Sqlite.update, Sqlite.get.
  rewrite Hb. simpl. answers Hf.
  destruct (filter _ (events s)) as [|old rest]; simpl; [reflexivity|].
  answers Hf; reflexivity.
Qed.

Lemma auth_delete_events_run (id : N) (s : store) :
  fails s = false ->
  Auth.delete_events id s =
  (match filter (fun r => (Event.id r =? id)%N) (events s) with
   | [] => res 404 (p_error "Evento no encontrado")
   | _ => res 200 p_success
   end,
   with_events (filter (fun r => negb (Event.id r =? id)%N) (events s))
     (log (DeleteEvent id) s)).
Proof.
  intros Hf. unfold Auth.delete_events, Supabase.delete. simpl. rewrite Hf.
  rewrite (filter_ext _ _ (matches_eq_id id)).
  rewrite (filter_ext _ _ (fun r => f_equal negb (matches_eq_id id r))).
  now destruct (filter _ (events s)) as [|old rest].
Qed.

Lemma noauth_delete_events_run (id : N) (s : store) :
  fails s = false ->
  NoAuth.delete_events id s =
  (match filter (fun r => (Event.id r =? id)%N) (events s) with
   | [] => res 404 (p_error "Evento no encontrado")
   | _ => res 200 p_success
   end,
   with_events (filter (fun r => negb (Event.id r =? id)%N) (events s))
     (log (DeleteEvent id) s)).
Proof.
  intros Hf. unfold NoAuth.delete_events, Sqlite.delete. simpl. rewrite Hf.
  now destruct (filter _ (events s)) as [|old rest].
Qed.

(** X13. With the store answering, 404 means exactly that no row has
    the id, even in a table where ids are not unique: a delete answers
    404 when no row has the id and 200 otherwise; an update with valid
    required fields answers 404 exactly when no row has the id; and with
    a 404 the tables are as before. *)
Theorem not_found_iff_absent :
  forall (id : N) (b : Body.t) (s : store),
    failing s = false ->
    (status (fst (Auth.delete_events id s)) =
       (if in_dec N.eq_dec id (ids s) then 200 else 404)%N /\
     status (fst (NoAuth.delete_events id s)) =
       (if in_dec N.eq_dec id (ids s) then 200 else 404)%N /\
     (~ In id (ids s) ->
      same_data s (snd (Auth.delete_events id s)) /\
      same_data s (snd (NoAuth.delete_events id s)))) /\
    (present (Body.date b) -> present (Body.time b) ->
     present (Body.title b) ->
     (status (fst (Auth.put_events id b s)) = 404%N <-> ~ In id (ids s)) /\
     (status (fst (NoAuth.put_events id (Some b) s)) = 404%N <-> ~ In id (ids s)) /\
     (~ In id (ids s) ->
      same_data s (snd (Auth.put_events id b s)) /\
      same_data s (snd (NoAuth.put_events id (Some b) s)))).
Proof.
  intros id b s Hf. unfold same_data, ids. split.
  - rewrite auth_delete_events_run, noauth_delete_events_run by answered Hf.
    simpl.
    destruct (in_dec N.eq_dec id (map Event.id (events s))) as [Hin|Hno].
    + destruct (filter _ (events s)) as [|old rest] eqn:E.
      * apply hit_nil_iff in E. contradiction.
      * repeat split; tauto.
    + rewrite (proj2 (hit_nil_iff id (events s)) Hno).
      repeat split; try reflexivity; now apply remove_absent.
  - intros Hd Ht Hti.
    assert (Hb : incomplete b = false) by now apply complete_iff.
    rewrite auth_put_events_run by (assumption || answered Hf).
    rewrite (@noauth_put_events_run id b s Hb Hf). simpl.
    destruct (filter _ (events s)) as [|old rest] eqn:E.
    + pose proof (proj1 (hit_nil_iff id (events s)) E) as Hno.
      repeat split; try reflexivity; try tauto; now apply set_absent.
    + assert (Hin : In id (map Event.id (events s))).
      { destruct (in_dec N.eq_dec id (map Event.id (events s))) as [H|H];
          [assumption|].
        apply hit_nil_iff in H. congruence. }
      destruct rest; simpl; repeat split; try discriminate; tauto.
Qed.

Lemma not_found_iff_absent_witness :
  status (fst (Auth.delete_events 2 Sample.db)) = 200%N /\
  status (fst (NoAuth.delete_events 9 Sample.db)) = 404%N /\
  (status (fst (Auth.put_events 9 Sample.launch Sample.db)) = 404%N <->
   ~ In 9%N (ids Sample.db)).
Proof.
  destruct (@not_found_iff_absent 2 Sample.launch Sample.db eq_refl)
    as ((H2 & _ & _) & _).
  destruct (@not_found_iff_absent 9 Sample.launch Sample.db eq_refl)
    as ((_ & H9 & _) & Hput).
  destruct (Hput eq_refl eq_refl eq_refl) as (Hiff & _ & _).
  split; [exact H2|]. split; [exact H9|exact Hiff].
Defined.

(** ** Repeating and undoing *)

Lemma hit_erased (id : N) (l : list Event.t) :
  filter (fun r => (Event.id r =? id)%N)
    (filter (fun r => negb (Event.id r =? id)%N) l) = [].
Proof.
  apply hit_nil_iff. apply (filter_key_other Event.id N.eqb N.eqb_eq).
Qed.

Lemma erased_twice (id : N) (l : list Event.t) :
  filter (fun r => negb (Event.id r =? id)%N)
    (filter (fun r => negb (Event.id r =? id)%N) l) =
  filter (fun r => negb (Event.id r =? id)%N) l.
Proof.
  apply remove_absent. apply (filter_key_other Event.id N.eqb N.eqb_eq).
Qed.

(** X9. With the store answering, a second delete of the same id is
    always answered with 404 and removes nothing, whether or not the
    first one found a row. *)
Theorem delete_again_not_found :
  forall (id : N) (s : store),
    failing s = false ->
    (let s1 := snd (Auth.delete_events id s) in
     status (fst (Auth.delete_events id s1)) = 404%N /\
     events (snd (Auth.delete_events id s1)) = events s1) /\
    (let s1 := snd (NoAuth.delete_events id s) in
     status (fst (NoAuth.delete_events id s1)) = 404%N /\
     events (snd (NoAuth.delete_events id s1)) = events s1).
Proof.
  intros id s Hf. cbv zeta.
  rewrite (auth_delete_events_run id s (answering_now s Hf)),
    (noauth_delete_events_run id s (answering_now s Hf)).
  simpl. rewrite auth_delete_events_run, noauth_delete_events_run by answered Hf.
  simpl. rewrite hit_erased, erased_twice. simpl. auto.
Qed.

Lemma delete_again_not_found_witness :
  status (fst (Auth.delete_events 2 Sample.db)) = 200%N /\
  status (fst (Auth.delete_events 2 (snd (Auth.delete_events 2 Sample.db)))) =
    404%N.
Proof.
  split; [reflexivity|].
  apply (proj1 (@delete_again_not_found 2 Sample.db eq_refl)).
Defined.

Lemma filter_map_same (p : Event.t -> bool) (g : Event.t -> Event.t)
  (l : list Event.t) :
  (forall r, p (g r) = p r) ->
  filter p (map g l) = map g (filter p l).
Proof.
  intros H. induction l as [|x l IH]; simpl; [reflexivity|].
  rewrite H. destruct (p x); simpl; now rewrite IH.
Qed.

Lemma rewritten_twice (id : N) (v : Fields.t) (l : list Event.t) :
  let g := fun r => if (Event.id r =? id)%N then Event.set v r else r in
  map g (map g l) = map g l.
Proof.
  cbv zeta. rewrite map_map. apply map_ext. intros r.
  destruct (Event.id r =? id)%N eqn:E; simpl; now rewrite E.
Qed.

Lemma hit_rewritten (id : N) (v : Fields.t) (l : list Event.t) :
  let g := fun r => if (Event.id r =? id)%N then Event.set v r else r in
  filter (fun r => (Event.id r =? id)%N) (map g l) =
  map g (filter (fun r => (Event.id r =? id)%N) l).
Proof.
  cbv zeta. apply filter_map_same. intros r.
  now destruct (Event.id r =? id)%N eqn:E.
Qed.

(** X8. Updating twice is updating once.  With valid required fields
    and the store answering, sending the same update again gives the same
    response and leaves the table as the first update left it. *)
Theorem update_again_same :
  forall (id : N) (b : Body.t) (s : store),
    present (Body.date b) -> present (Body.time b) -> present (Body.title b) ->
    failing s = false ->
    (let out := Auth.put_events id b s in
     fst (Auth.put_events id b (snd out)) = fst out /\
     events (snd (Auth.put_events id b (snd out))) = events (snd out)) /\
    (let out := NoAuth.put_events id (Some b) s in
     fst (NoAuth.put_events id (Some b) (snd out)) = fst out /\
     events (snd (NoAuth.put_events id (Some b) (snd out))) = events (snd out)).
Proof.
  intros id b s Hd Ht Hti Hf.
  assert (Hb : incomplete b = false) by now apply complete_iff.
  cbv zeta. split.
  - rewrite (@auth_put_events_run id b s Hb (answering_now s Hf)). simpl.
    rewrite auth_put_events_run by (assumption || answered Hf). simpl.
    rewrite hit_rewritten, rewritten_twice. split; [|reflexivity].
    destruct (filter _ (events s)) as [|old [|other rest]]; simpl;
      try reflexivity.
    now destruct (Event.id old =? id)%N.
  - rewrite (@noauth_put_events_run id b s Hb Hf).
    destruct (filter (fun r => (Event.id r =? id)%N) (events s))
      as [|old rest] eqn:E; simpl.
    + rewrite noauth_put_events_run by (assumption || answering Hf). simpl.
      rewrite hit_rewritten, E, rewritten_twice. simpl. auto.
    + rewrite noauth_put_events_run by (assumption || answering Hf). simpl.
      rewrite hit_rewritten, E, rewritten_twice. simpl. auto.
Qed.

Lemma update_again_same_witness :
  fst (Auth.put_events 1 Fixture.retitle
         (snd (Auth.put_events 1 Fixture.retitle Sample.db))) =
  fst (Auth.put_events 1 Fixture.retitle Sample.db) /\
  events (snd (Auth.put_events 1 Fixture.retitle
                 (snd (Auth.put_events 1 Fixture.retitle Sample.db)))) =
  events (snd (Auth.put_events 1 Fixture.retitle Sample.db)).
Proof.
  apply (proj1 (@update_again_same 1 Fixture.retitle Sample.db
                  eq_refl eq_refl eq_refl eq_refl)).
Defined.

Lemma auth_post_events_run (u : SessionUser.t) (b : Body.t) (s : store) :
  incomplete b = false -> failing s = false ->
  let row :=
    Event.create (next_id s) (written None b) (now s)
      (Some (SessionUser.id u)) in
  Auth.post_events (Some u) b s =
  (res 201 (p_event (Some row)),
   bump_id (with_events (events s ++ [row])
              (log (InsertEvent (written None b)) s))).
Proof.
  intros Hb Hf. cbv zeta. unfold Auth.post_events, Supabase.insert.
  rewrite Hb. simpl. answers Hf; reflexivity.
Qed.

Lemma noauth_post_events_run (b : Body.t) (s : store) :
  incomplete b = false -> failing s = false -> consistent s ->
  let row := Event.create (next_id s) (written (Some "") b) (now s) None in
  NoAuth.post_events (Some b) s =
  (res 201 (p_event (Some row)),
   log (SelectEvent (next_id s))
     (bump_id (with_events (events s ++ [row])
                 (log (InsertEvent (written (Some "") b)) s)))).
Proof.
  intros Hb Hf Hc. cbv zeta.
  unfold NoAuth.post_events, Sqlite.insert, Sqlite.get.
  rewrite Hb. simpl. answers Hf. simpl. answers Hf. simpl.
  now rewrite find_issued by (reflexivity || apply Hc).
Qed.

Lemma hit_appended (s : store) (row : Event.t) :
  consistent s -> Event.id row = next_id s ->
  filter (fun r => (Event.id r =? next_id s)%N) (events s ++ [row]) = [row] /\
  filter (fun r => negb (Event.id r =? next_id s)%N) (events s ++ [row]) =
    events s.
Proof.
  intros Hc Hid. pose proof (@next_id_fresh s Hc) as Hfresh.
  rewrite !filter_app. simpl. rewrite Hid, N.eqb_refl. simpl.
  rewrite (proj2 (hit_nil_iff (next_id s) (events s)) Hfresh).
  rewrite (@remove_absent (next_id s) (events s) Hfresh).
  now rewrite app_nil_r.
Qed.

(** X10. Create, then delete what was created.  With the store answering
    and keys in order, deleting the id that a create has just returned
    answers 200 and brings the table back to what it was before the
    create; the id counter stays advanced, so the id is not given out
    again. *)
Theorem create_then_delete_restores :
  forall (u : SessionUser.t) (b : Body.t) (s : store),
    present (Body.date b) -> present (Body.time b) -> present (Body.title b) ->
    SessionUser.role u = "admin" -> failing s = false -> consistent s ->
    (let s1 := snd (Auth.route_post_events (Some u) b s) in
     let out := Auth.route_delete_events (Some u) (next_id s) s1 in
     fst out = res 200 p_success /\ events (snd out) = events s /\
     next_id (snd out) = N.succ (next_id s)) /\
    (let s1 := snd (NoAuth.post_events (Some b) s) in
     let out := NoAuth.delete_events (next_id s) s1 in
     fst out = res 200 p_success /\ events (snd out) = events s /\
     next_id (snd out) = N.succ (next_id s)).
Proof.
  intros u b s Hd Ht Hti Hu Hf Hc.
  assert (Hb : incomplete b = false) by now apply complete_iff.
  cbv zeta. unfold Auth.route_post_events, Auth.route_delete_events,
    Auth.requireAuth, Auth.requireAdmin.
  rewrite Hu. simpl. split.
  - rewrite (auth_post_events_run u b s Hb Hf). simpl.
    rewrite auth_delete_events_run by answered Hf. simpl.
    destruct (hit_appended s
                (Event.create (next_id s) (written None b) (now s)
                   (Some (SessionUser.id u))) Hc eq_refl) as [-> ->].
    auto.
  - rewrite (noauth_post_events_run b s Hb Hf Hc). simpl.
    rewrite noauth_delete_events_run by answered Hf. simpl.
    destruct (hit_appended s
                (Event.create (next_id s) (written (Some "") b) (now s) None)
                Hc eq_refl) as [-> ->].
    auto.
Qed.

Lemma create_then_delete_restores_witness :
  events (snd (Auth.route_delete_events (Some Sample.ana) 4
                 (snd (Auth.route_post_events (Some Sample.ana) Sample.launch
                         Sample.db)))) = events Sample.db /\
  events (snd (NoAuth.delete_events 4
                 (snd (NoAuth.post_events (Some Sample.launch) Sample.db)))) =
    events Sample.db.
Proof.
  destruct (create_then_delete_restores Sample.ana Sample.launch Sample.db
              eq_refl eq_refl eq_refl eq_refl eq_refl sample_db_consistent)
    as ((_ & H1 & _) & (_ & H2 & _)).
  split; assumption.
Defined.

(** ** Reading after writing *)

(** X11. Update, then list.  After an update of an existing record,
    with valid required fields, the store answering and keys in order, a
    list over a range that contains the new date returns the updated
    record, and no row in the answer carries that id with other
    contents. *)
Theorem update_then_list_shows_new :
  forall (u : SessionUser.t) (b : Body.t) (q : Range.t) (s : store)
         (old : Event.t),
    present (Body.date b) -> present (Body.time b) -> present (Body.title b) ->
    present (Range.start q) -> present (Range.end_ q) ->
    (text (Range.start q) <=? text (Body.date b)) = true ->
    (text (Body.date b) <=? text (Range.end_ q)) = true ->
    failing s = false -> consistent s -> In old (events s) ->
    (let s1 := snd (Auth.route_put_events (Some u) (Event.id old) b s) in
     exists rows,
       fst (Auth.route_get_events (Some u) q s1) = res 200 (p_events rows) /\
       In (Event.set (written None b) old) rows /\
       forall e, In e rows -> Event.id e = Event.id old ->
                 e = Event.set (written None b) old) /\
    (let s1 := snd (NoAuth.put_events (Event.id old) (Some b) s) in
     exists rows,
       fst (NoAuth.get_events q s1) = res 200 (p_events rows) /\
       In (Event.set (written (Some "") b) old) rows /\
       forall e, In e rows -> Event.id e = Event.id old ->
                 e = Event.set (written (Some "") b) old).
Proof.
  intros u b q s old Hd Ht Hti Hs He Hlo Hhi Hf Hc Hold.
  assert (Hb : incomplete b = false) by now apply complete_iff.
  cbv zeta. split.
  - pose proof (auth_put_events_effect (Some u) (Event.id old) b s) as Heff.
    set (s1 := snd (Auth.route_put_events (Some u) (Event.id old) b s)) in *.
    pose proof (effect_consistent _ _ _ Heff Hc) as Hc1.
    destruct (effect_frame _ _ _ Heff) as (Hf1 & _). specialize (Hf1 Hf).
    destruct (@auth_put_events_ok b s old Hb Hf Hc Hold)
      as (_ & _ & Hrow & _).
    change (snd (Auth.put_events (Event.id old) b s)) with s1 in Hrow.
    destruct (proj1 (@list_rows_of_route u q s1 Hs He Hf1))
      as (rows & Hout & _ & HIn & _).
    exists rows. rewrite Hout. split; [reflexivity|]. split.
    + apply HIn. split; [exact Hrow|]. split; assumption.
    + intros e Hin Hid. apply HIn in Hin. destruct Hin as [Hin _].
      apply (@key_inj (events s1)); try assumption. apply Hc1.
  - pose proof (noauth_put_events_effect (Event.id old) (Some b) s) as Heff.
    set (s1 := snd (NoAuth.put_events (Event.id old) (Some b) s)) in *.
    pose proof (effect_consistent _ _ _ Heff Hc) as Hc1.
    destruct (effect_frame _ _ _ Heff) as (Hf1 & _). specialize (Hf1 Hf).
    destruct (@noauth_put_events_ok b s old Hb Hf Hc Hold)
      as (_ & _ & Hrow & _).
    change (snd (NoAuth.put_events (Event.id old) (Some b) s)) with s1 in Hrow.
    destruct (proj2 (@list_rows_of_route u q s1 Hs He Hf1))
      as (rows & Hout & _ & HIn & _).
    exists rows. rewrite Hout. split; [reflexivity|]. split.
    + apply HIn. split; [exact Hrow|]. split; assumption.
    + intros e Hin Hid. apply HIn in Hin. destruct Hin as [Hin _].
      apply (@key_inj (events s1)); try assumption. apply Hc1.
Qed.

Lemma update_then_list_shows_new_witness :
  exists rows,
    fst (Auth.route_get_events (Some Sample.leo) Sample.june
           (snd (Auth.route_put_events (Some Sample.leo) 1 Fixture.retitle
                   Sample.db))) = res 200 (p_events rows) /\
    In (Event.set (written None Fixture.retitle) Sample.reel) rows.
Proof.
  destruct (update_then_list_shows_new Sample.leo Fixture.retitle Sample.june
              Sample.db Sample.reel eq_refl eq_refl eq_refl eq_refl eq_refl
              eq_refl eq_refl eq_refl sample_db_consistent
              (or_introl eq_refl))
    as ((rows & H1 & H2 & _) & _).
  exists rows. split; assumption.
Defined.

(** X12. A range given backwards is not an error: with both bounds
    present, [end] before [start] and the store answering, the answer is
    200 with the empty array, in both variants. *)
Theorem backwards_range_is_empty :
  forall (u : SessionUser.t) (q : Range.t) (s : store),
    present (Range.start q) -> present (Range.end_ q) ->
    (text (Range.start q) <=? text (Range.end_ q)) = false ->
    failing s = false ->
    fst (Auth.route_get_events (Some u) q s) = res 200 (p_events []) /\
    fst (NoAuth.get_events q s) = res 200 (p_events []).
Proof.
  intros u q s Hs He Hback Hf.
  assert (Hnone : forall e, In e (events s) ->
            ~ within (text (Range.start q)) (text (Range.end_ q)) e).
  { intros e _ [Hlo Hhi].
    rewrite (@leb_trans _ _ _ Hlo Hhi) in Hback. discriminate. }
  destruct (@list_rows_of_route u q s Hs He Hf)
    as [(r1 & -> & _ & _ & _ & E1) (r2 & -> & _ & _ & _ & E2)].
  now rewrite (E1 Hnone), (E2 Hnone).
Qed.

Lemma backwards_range_is_empty_witness :
  fst (Auth.route_get_events (Some Sample.leo) Fixture.backwards Sample.db) =
    res 200 (p_events []) /\
  fst (NoAuth.get_events Fixture.backwards Sample.db) = res 200 (p_events []).
Proof.
  apply (backwards_range_is_empty Sample.leo Fixture.backwards Sample.db);
    reflexivity.
Defined.

(** ** The shape of every answer *)

Ltac shape :=
  unfold shaped; simpl; split;
  [ repeat (first [left; reflexivity | right])
  | split;
    [ intros ?; first [eexists; reflexivity | exfalso; lia]
    | intros [? Hbody]; first [discriminate Hbody | lia] ] ].

Lemma auth_get_events_shaped (sess : Auth.session) (q : Range.t) (s : store) :
  shaped [200; 400; 401; 500]%N (fst (Auth.route_get_events sess q s)).
Proof.
  unfold Auth.route_get_events, Auth.requireAuth, Auth.get_events,
    Supabase.select_events.
  destruct sess as [u|]; [|shape].
  destruct (negb (truthy (Range.start q)) || negb (truthy (Range.end_ q)));
    [shape|].
  simpl. destruct (fails s); shape.
Qed.

Lemma auth_post_events_shaped (sess : Auth.session) (b : Body.t) (s : store) :
  shaped [201; 400; 401; 500]%N (fst (Auth.route_post_events sess b s)).
Proof.
  unfold Auth.route_post_events, Auth.requireAuth, Auth.post_events,
    Supabase.insert.
  destruct sess as [u|]; [|shape].
  destruct (incomplete b); [shape|].
  simpl. destruct (fails s); shape.
Qed.

Lemma auth_put_events_shaped (sess : Auth.session) (id : N) (b : Body.t)
  (s : store) :
  shaped [200; 400; 401; 404; 500]%N (fst (Auth.route_put_events sess id b s)).
Proof.
  unfold Auth.route_put_events, Auth.requireAuth, Auth.put_events,
    Supabase.update.
  destruct sess as [u|]; [|shape].
  destruct (incomplete b); [shape|].
  simpl. destruct (fails s); [shape|].
  match goal with
  | |- context [Supabase.maybeSingle ?l] =>
      destruct (Supabase.maybeSingle l) as [[row|] [err|] n]
  end; shape.
Qed.

Lemma auth_delete_events_shaped (sess : Auth.session) (id : N) (s : store) :
  shaped [200; 401; 403; 404; 500]%N (fst (Auth.route_delete_events sess id s)).
Proof.
  unfold Auth.route_delete_events, Auth.requireAdmin, Auth.delete_events,
    Supabase.delete.
  destruct sess as [u|]; [|shape].
  destruct (negb (SessionUser.role u =? "admin")); [shape|].
  simpl. destruct (fails s); [shape|].
  match goal with
  | |- context [N.of_nat ?n] => destruct (N.of_nat n)
  end; shape.
Qed.

Lemma post_login_shaped (c : Credentials.t) (sess : Auth.session) (s : store) :
  shaped [200; 400; 401; 500]%N (fst (fst (Auth.post_login c sess s))).
Proof.
  destruct (post_login_outcome c sess s)
    as [(code & msg & Hcode & ->)|(user & _ & _ & _ & _ & _ & _ & ->)];
    [|shape].
  simpl in Hcode. destruct Hcode as [<-|[<-|[<-|[]]]]; shape.
Qed.

Lemma noauth_get_events_shaped (q : Range.t) (s : store) :
  shaped [200; 400; 500]%N (fst (NoAuth.get_events q s)).
Proof.
  unfold NoAuth.get_events, Sqlite.all_in_range.
  destruct (negb (truthy (Range.start q)) || negb (truthy (Range.end_ q)));
    [shape|].
  simpl. destruct (fails s); shape.
Qed.

Lemma noauth_post_events_shaped (body : option Body.t) (s : store) :
  shaped [201; 400; 500]%N (fst (NoAuth.post_events body s)).
Proof.
  unfold NoAuth.post_events, Sqlite.insert, Sqlite.get.
  destruct body as [b|]; [|shape].
  destruct (incomplete b); [shape|].
  simpl. destruct (fails s); [shape|].
  simpl. destruct (fails _); shape.
Qed.

Lemma noauth_put_events_shaped (id : N) (b : Body.t) (s : store) :
  shaped [200; 400; 404; 500]%N (fst (NoAuth.put_events id (Some b) s)).
Proof.
  unfold NoAuth.put_events, Sqlite.update, Sqlite.get.
  destruct (incomplete b); [shape|].
  simpl. destruct (fails s); [shape|].
  simpl.
  match goal with
  | |- context [(Sqlite.count ?l =? 0)%N] =>
      destruct (Sqlite.count l =? 0)%N
  end; [shape|].
  simpl. destruct (fails _); shape.
Qed.

Lemma noauth_delete_events_shaped (id : N) (s : store) :
  shaped [200; 404; 500]%N (fst (NoAuth.delete_events id s)).
Proof.
  unfold NoAuth.delete_events, Sqlite.delete.
  simpl. destruct (fails s); [shape|].
  simpl.
  match goal with
  | |- context [(Sqlite.count ?l =? 0)%N] =>
      destruct (Sqlite.count l =? 0)%N
  end; shape.
Qed.

(** X14. Every answer a handler of [server.js] sends has one of the
    statuses that route can give, and its body is [{ error: message }]
    exactly when the status is 400 or more: login and list 200, 400, 401,
    500; create 201, 400, 401, 500; update 200, 400, 401, 404, 500; delete
    200, 401, 403, 404, 500; the SQLite routes the same without 401 and
    403.  This holds for every session, parameter, body and store, a
    create without a body included.  An update sent to the SQLite variant
    without a body is the exception: the handler throws, and the answer
    is the 500 of Express with its error page, not an error object.
    What Express answers before a handler runs, as to a body that is not
    JSON, is not a handler's answer. *)
Theorem answers_are_shaped :
  forall (sess : Auth.session) (q : Range.t) (b : Body.t)
         (body : option Body.t) (id : N) (c : Credentials.t) (s : store),
    shaped [200; 400; 401; 500]%N (fst (fst (Auth.post_login c sess s))) /\
    shaped [200; 400; 401; 500]%N (fst (Auth.route_get_events sess q s)) /\
    shaped [201; 400; 401; 500]%N (fst (Auth.route_post_events sess b s)) /\
    shaped [200; 400; 401; 404; 500]%N
      (fst (Auth.route_put_events sess id b s)) /\
    shaped [200; 401; 403; 404; 500]%N
      (fst (Auth.route_delete_events sess id s)) /\
    shaped [200; 400; 500]%N (fst (NoAuth.get_events q s)) /\
    shaped [201; 400; 500]%N (fst (NoAuth.post_events body s)) /\
    shaped [200; 400; 404; 500]%N (fst (NoAuth.put_events id (Some b) s)) /\
    NoAuth.put_events id None s = (res 500 p_html, s) /\
    ~ shaped [200; 400; 404; 500]%N (fst (NoAuth.put_events id None s)) /\
    shaped [200; 404; 500]%N (fst (NoAuth.delete_events id s)).
Proof.
  intros sess q b body id c s.
  split; [apply post_login_shaped|].
  split; [apply auth_get_events_shaped|].
  split; [apply auth_post_events_shaped|].
  split; [apply auth_put_events_shaped|].
  split; [apply auth_delete_events_shaped|].
  split; [apply noauth_get_events_shaped|].
  split; [apply noauth_post_events_shaped|].
  split; [apply noauth_put_events_shaped|].
  split; [reflexivity|].
  split; [|apply noauth_delete_events_shaped].
  intros [_ [H _]]. destruct H as [msg Hmsg]; [simpl; lia|discriminate].
Qed.

(** ** What a request leaves alone *)

Lemma auth_get_events_reads (sess : Auth.session) (q : Range.t) (s : store) :
  same_data s (snd (Auth.route_get_events sess q s)).
Proof.
  unfold Auth.route_get_events, Auth.requireAuth, Auth.get_events,
    Supabase.select_events, same_data.
  destruct sess as [u|]; [|auto].
  destruct (negb (truthy (Range.start q)) || negb (truthy (Range.end_ q)));
    [auto|].
  simpl. destruct (fails s); simpl; auto.
Qed.

Lemma noauth_get_events_reads (q : Range.t) (s : store) :
  same_data s (snd (NoAuth.get_events q s)).
Proof.
  unfold NoAuth.get_events, Sqlite.all_in_range, same_data.
  destruct (negb (truthy (Range.start q)) || negb (truthy (Range.end_ q)));
    [auto|].
  simpl. destruct (fails s); simpl; auto.
Qed.

Lemma post_login_reads (c : Credentials.t) (sess : Auth.session) (s : store) :
  same_data s (snd (Auth.post_login c sess s)).
Proof.
  unfold Auth.post_login, Supabase.select_user, same_data.
  destruct (negb (truthy (Credentials.email c)) ||
            negb (truthy (Credentials.password c))); [auto|].
  simpl. destruct (fails s); simpl; [auto|].
  match goal with
  | |- context [Supabase.maybeSingle ?l] =>
      destruct (Supabase.maybeSingle l) as [[user|] [err|] n]
  end; simpl; auto.
  destruct (User.active user); simpl; auto.
  destruct (User.password user =? _); simpl; auto.
Qed.

(** X16. Reading changes nothing, and nothing changes the users.  A
    list, in either variant, and a login leave the events, the users and
    the id counter as they were, whatever the request; create, update and
    delete, in either variant, never change the users table. *)
Theorem reads_change_nothing :
  forall (sess : Auth.session) (q : Range.t) (b : Body.t)
         (body : option Body.t) (id : N) (c : Credentials.t) (s : store),
    same_data s (snd (Auth.route_get_events sess q s)) /\
    same_data s (snd (NoAuth.get_events q s)) /\
    same_data s (snd (Auth.post_login c sess s)) /\
    users (snd (Auth.route_post_events sess b s)) = users s /\
    users (snd (Auth.route_put_events sess id b s)) = users s /\
    users (snd (Auth.route_delete_events sess id s)) = users s /\
    users (snd (NoAuth.post_events body s)) = users s /\
    users (snd (NoAuth.put_events id body s)) = users s /\
    users (snd (NoAuth.delete_events id s)) = users s.
Proof.
  intros sess q b body id c s.
  split; [apply auth_get_events_reads|].
  split; [apply noauth_get_events_reads|].
  split; [apply post_login_reads|].
  repeat split.
  - apply (effect_frame _ _ _ (auth_post_events_effect sess b s)).
  - apply (effect_frame _ _ _ (auth_put_events_effect sess id b s)).
  - apply (effect_frame _ _ _ (auth_delete_events_effect filled sess id s)).
  - apply (effect_frame _ _ _ (noauth_post_events_effect body s)).
  - apply (effect_frame _ _ _ (noauth_put_events_effect id body s)).
  - apply (effect_frame _ _ _ (noauth_delete_events_effect filled id s)).
Qed.

Lemma one_hit (id : N) (s : store) :
  consistent s ->
  filter (fun r => (Event.id r =? id)%N) (events s) = [] \/
  exists old, filter (fun r => (Event.id r =? id)%N) (events s) = [old].
Proof.
  intros Hc. destruct (in_dec N.eq_dec id (ids s)) as [Hin|Hno].
  - right. unfold ids in Hin. apply in_map_iff in Hin.
    destruct Hin as (old & Hid & Hold). exists old.
    apply (@filter_key_unique _ _ Event.id N.eqb N.eqb_eq id (events s) old
             (ids_unique Hc) Hold Hid).
  - left. now apply hit_nil_iff.
Qed.

Lemma log_same (c : call) (s : store) : same_data s (log c s).
Proof. repeat split. Qed.

Lemma auth_post_events_atomic (sess : Auth.session) (b : Body.t) (s : store) :
  (400 <= status (fst (Auth.route_post_events sess b s)))%N ->
  same_data s (snd (Auth.route_post_events sess b s)).
Proof.
  unfold Auth.route_post_events, Auth.requireAuth, Auth.post_events,
    Supabase.insert, same_data.
  destruct sess as [u|]; [|auto].
  destruct (incomplete b); [auto|].
  simpl. destruct (fails s); simpl; [auto|lia].
Qed.

Lemma noauth_post_events_atomic (body : option Body.t) (s : store) :
  fails_next s = false ->
  (400 <= status (fst (NoAuth.post_events body s)))%N ->
  same_data s (snd (NoAuth.post_events body s)).
Proof.
  intros Hn. unfold NoAuth.post_events, Sqlite.insert, Sqlite.get, same_data.
  destruct body as [b|]; [|auto].
  destruct (incomplete b); [auto|].
  simpl. destruct (fails s) eqn:Hf; simpl; [auto|].
  replace (fails _) with (fails_next s) by reflexivity.
  rewrite Hn. simpl. lia.
Qed.

Lemma auth_put_events_atomic (sess : Auth.session) (id : N) (b : Body.t)
  (s : store) :
  consistent s ->
  (400 <= status (fst (Auth.route_put_events sess id b s)))%N ->
  same_data s (snd (Auth.route_put_events sess id b s)).
Proof.
  intros Hc. unfold Auth.route_put_events, Auth.requireAuth.
  destruct sess as [u|]; [|repeat split].
  destruct (incomplete b) eqn:Hb;
    [unfold Auth.put_events; rewrite Hb; repeat split|].
  destruct (fails s) eqn:Hf.
  - unfold Auth.put_events, Supabase.update. rewrite Hb. simpl. rewrite Hf.
    simpl. intros _. apply log_same.
  - rewrite (auth_put_events_run id b s Hb Hf). simpl.
    destruct (one_hit id s Hc) as [E|[old E]]; rewrite E; [|simpl; lia].
    intros _. apply hit_nil_iff in E. unfold same_data. simpl.
    rewrite (@set_absent id _ (events s) E). auto.
Qed.

Lemma noauth_put_events_atomic (id : N) (body : option Body.t) (s : store) :
  fails_next s = false ->
  (400 <= status (fst (NoAuth.put_events id body s)))%N ->
  same_data s (snd (NoAuth.put_events id body s)).
Proof.
  intros Hn. unfold NoAuth.put_events, Sqlite.update, Sqlite.get.
  destruct body as [b|]; [|repeat split].
  destruct (incomplete b); [repeat split|].
  simpl. destruct (fails s) eqn:Hf; simpl; [intros _; apply log_same|].
  unfold Sqlite.count.
  destruct (filter (fun r => (Event.id r =? id)%N) (events s))
    as [|old rest] eqn:E; simpl.
  - intros _. apply hit_nil_iff in E. unfold same_data. simpl.
    rewrite (@set_absent id _ (events s) E). auto.
  - replace (fails _) with (fails_next s) by reflexivity.
    rewrite Hn. simpl. lia.
Qed.

Lemma auth_delete_events_atomic (sess : Auth.session) (id : N) (s : store) :
  (400 <= status (fst (Auth.route_delete_events sess id s)))%N ->
  same_data s (snd (Auth.route_delete_events sess id s)).
Proof.
  unfold Auth.route_delete_events, Auth.requireAdmin.
  destruct sess as [u|]; [|repeat split].
  destruct (negb (SessionUser.role u =? "admin")); [repeat split|].
  destruct (fails s) eqn:Hf.
  - unfold Auth.delete_events, Supabase.delete. simpl. rewrite Hf.
    simpl. intros _. apply log_same.
  - rewrite (auth_delete_events_run id s Hf).
    destruct (filter (fun r => (Event.id r =? id)%N) (events s))
      as [|old rest] eqn:E; [|simpl; lia].
    intros _. apply hit_nil_iff in E. unfold same_data. simpl.
    rewrite (@remove_absent id (events s) E). auto.
Qed.

Lemma noauth_delete_events_atomic (id : N) (s : store) :
  (400 <= status (fst (NoAuth.delete_events id s)))%N ->
  same_data s (snd (NoAuth.delete_events id s)).
Proof.
  destruct (fails s) eqn:Hf.
  - unfold NoAuth.delete_events, Sqlite.delete. simpl. rewrite Hf.
    simpl. intros _. apply log_same.
  - rewrite (noauth_delete_events_run id s Hf).
    destruct (filter (fun r => (Event.id r =? id)%N) (events s))
      as [|old rest] eqn:E; [|simpl; lia].
    intros _. apply hit_nil_iff in E. unfold same_data. simpl.
    rewrite (@remove_absent id (events s) E). auto.
Qed.

(** X15. No error with half an effect, one case apart.  With ids
    unique, a create, update or delete of the Supabase variant and a
    delete of the SQLite variant that answer with a status of 400 or
    more have left the events, the users and the id counter exactly as
    they were.  So have a create and an update of the SQLite variant,
    with or without a body, unless the store fails at their second
    statement, the read-back of the row just written: that one 500
    comes with the row written. *)
Theorem errors_leave_tables_alone :
  forall (sess : Auth.session) (b : Body.t) (body : option Body.t) (id : N)
         (s : store),
    consistent s ->
    ((400 <= status (fst (Auth.route_post_events sess b s)))%N ->
     same_data s (snd (Auth.route_post_events sess b s))) /\
    ((400 <= status (fst (Auth.route_put_events sess id b s)))%N ->
     same_data s (snd (Auth.route_put_events sess id b s))) /\
    ((400 <= status (fst (Auth.route_delete_events sess id s)))%N ->
     same_data s (snd (Auth.route_delete_events sess id s))) /\
    ((400 <= status (fst (NoAuth.post_events body s)))%N ->
     fails_next s = false ->
     same_data s (snd (NoAuth.post_events body s))) /\
    ((400 <= status (fst (NoAuth.put_events id body s)))%N ->
     fails_next s = false ->
     same_data s (snd (NoAuth.put_events id body s))) /\
    ((400 <= status (fst (NoAuth.delete_events id s)))%N ->
     same_data s (snd (NoAuth.delete_events id s))).
Proof.
  intros sess b body id s Hc.
  split; [apply auth_post_events_atomic|].
  split; [now apply auth_put_events_atomic|].
  split; [apply auth_delete_events_atomic|].
  split; [intros Hs Hn; now apply noauth_post_events_atomic|].
  split; [intros Hs Hn; now apply noauth_put_events_atomic|].
  apply noauth_delete_events_atomic.
Qed.

Lemma errors_leave_tables_alone_witness :
  same_data Sample.db
    (snd (Auth.route_put_events (Some Sample.leo) 9 Sample.launch Sample.db)) /\
  same_data Sample.db
    (snd (Auth.route_delete_events (Some Sample.leo) 2 Sample.db)) /\
  same_data Sample.db
    (snd (NoAuth.post_events (Some Sample.untitled) Sample.db)) /\
  same_data Sample.db
    (snd (NoAuth.put_events 9 (Some Sample.launch) Sample.db)).
Proof.
  destruct (errors_leave_tables_alone (Some Sample.leo) Sample.launch
              (Some Sample.launch) 9 Sample.db sample_db_consistent)
    as (_ & Hput & _ & _ & Hput' & _).
  destruct (errors_leave_tables_alone (Some Sample.leo) Sample.untitled
              (Some Sample.untitled) 2 Sample.db sample_db_consistent)
    as (_ & _ & Hdel & Hpost & _).
  split; [apply Hput; vm_compute; discriminate|].
  split; [apply Hdel; vm_compute; discriminate|].
  split; [apply Hpost; [vm_compute; discriminate|reflexivity]|].
  apply Hput'; [vm_compute; discriminate|reflexivity].
Defined.

(** ** More on lists *)

(** X17. Widening the range only adds rows.  With all four bounds
    present and the store answering, every row a list returns for a range
    is also returned for any range that starts no later and ends no
    earlier, in both variants. *)
Theorem wider_range_lists_more :
  forall (u : SessionUser.t) (q wide : Range.t) (s : store),
    present (Range.start q) -> present (Range.end_ q) ->
    present (Range.start wide) -> present (Range.end_ wide) ->
    (text (Range.start wide) <=? text (Range.start q)) = true ->
    (text (Range.end_ q) <=? text (Range.end_ wide)) = true ->
    failing s = false ->
    (exists rows more,
       fst (Auth.route_get_events (Some u) q s) = res 200 (p_events rows) /\
       fst (Auth.route_get_events (Some u) wide s) = res 200 (p_events more) /\
       incl rows more) /\
    (exists rows more,
       fst (NoAuth.get_events q s) = res 200 (p_events rows) /\
       fst (NoAuth.get_events wide s) = res 200 (p_events more) /\
       incl rows more).
Proof.
  intros u q wide s Hs He Hws Hwe Hlo Hhi Hf.
  destruct (@list_rows_of_route u q s Hs He Hf)
    as [(r1 & E1 & _ & In1 & _) (r2 & E2 & _ & In2 & _)].
  destruct (@list_rows_of_route u wide s Hws Hwe Hf)
    as [(w1 & F1 & _ & Iw1 & _) (w2 & F2 & _ & Iw2 & _)].
  assert (Hwiden : forall e,
            within (text (Range.start q)) (text (Range.end_ q)) e ->
            within (text (Range.start wide)) (text (Range.end_ wide)) e).
  { intros e [H1 H2]. split; eapply leb_trans; eauto. }
  split.
  - exists r1, w1. rewrite E1, F1. repeat split.
    intros e Hin. apply Iw1. apply In1 in Hin. destruct Hin; auto.
  - exists r2, w2. rewrite E2, F2. repeat split.
    intros e Hin. apply Iw2. apply In2 in Hin. destruct Hin; auto.
Qed.

Lemma wider_range_lists_more_witness :
  exists rows more,
    fst (NoAuth.get_events Sample.june Sample.db) = res 200 (p_events rows) /\
    fst (NoAuth.get_events
           (Range.mk (Some "2024-01-01") (Some "2024-12-31")) Sample.db) =
      res 200 (p_events more) /\
    incl rows more.
Proof.
  apply (proj2 (wider_range_lists_more Sample.leo Sample.june
                  (Range.mk (Some "2024-01-01") (Some "2024-12-31"))
                  Sample.db eq_refl eq_refl eq_refl eq_refl eq_refl eq_refl
                  eq_refl)).
Defined.

Lemma ids_kept (p : Event.t -> bool) (l : list Event.t) :
  NoDup (map Event.id l) -> NoDup (map Event.id (filter p l)).
Proof.
  intros H. rewrite (filter_ext p (fun r => negb (negb (p r)))).
  - now apply ids_erased.
  - intros r. now rewrite negb_involutive.
Qed.

(** X18. No event is listed twice.  With ids unique and the store
    answering, the ids of the rows a list returns are pairwise distinct,
    in both variants. *)
Theorem list_has_no_duplicates :
  forall (u : SessionUser.t) (q : Range.t) (s : store),
    present (Range.start q) -> present (Range.end_ q) ->
    failing s = false -> consistent s ->
    (exists rows,
       fst (Auth.route_get_events (Some u) q s) = res 200 (p_events rows) /\
       NoDup (map Event.id rows)) /\
    (exists rows,
       fst (NoAuth.get_events q s) = res 200 (p_events rows) /\
       NoDup (map Event.id rows)).
Proof.
  intros u q s Hs He Hf Hc.
  destruct (@list_rows_of_route u q s Hs He Hf)
    as [(r1 & E1 & P1 & _) (r2 & E2 & P2 & _)].
  pose proof (ids_kept (withinb (text (Range.start q)) (text (Range.end_ q)))
                (events s) (ids_unique Hc)) as Hnd.
  split; [exists r1; rewrite E1|exists r2; rewrite E2];
    (split; [reflexivity|]);
    eapply Permutation_NoDup; try exact Hnd;
    apply Permutation_map; now symmetry.
Qed.

Lemma list_has_no_duplicates_witness :
  exists rows,
    fst (Auth.route_get_events (Some Sample.leo) Sample.june Sample.db) =
      res 200 (p_events rows) /\
    NoDup (map Event.id rows).
Proof.
  apply (proj1 (list_has_no_duplicates Sample.leo Sample.june Sample.db
                  eq_refl eq_refl eq_refl sample_db_consistent)).
Defined.

(** ** Sequences of requests *)

Lemma effect_trans (ok : Fields.t -> Prop) (s s1 s2 : store) :
  effect ok s s1 -> effect ok s1 s2 -> effect ok s s2.
Proof.
  intros H1 H2. induction H2 as [|s3 s4 _ IH Hch]; [assumption|].
  eapply and_then; eauto.
Qed.

Lemma auth_effect (client : N) (r : Router.request) (all : Router.sessions)
  (s : store) :
  effect blank_is_null s (snd (Router.auth client r all s)).
Proof.
  destruct r as [c| |q|b|id b|id]; simpl.
  - pose proof (post_login_effect blank_is_null c (all client) s) as H.
    now destruct (Auth.post_login c (all client) s) as [[a sess'] s'].
  - apply untouched.
  - pose proof (auth_get_events_effect blank_is_null (all client) q s) as H.
    now destruct (Auth.route_get_events (all client) q s) as [a s'].
  - pose proof (auth_post_events_effect (all client) b s) as H.
    now destruct (Auth.route_post_events (all client) b s) as [a s'].
  - pose proof (auth_put_events_effect (all client) id b s) as H.
    now destruct (Auth.route_put_events (all client) id b s) as [a s'].
  - pose proof (auth_delete_events_effect blank_is_null (all client) id s)
      as H.
    now destruct (Auth.route_delete_events (all client) id s) as [a s'].
Qed.

Lemma open_effect (r : Router.open_request) (s : store) :
  effect null_is_blank s (snd (Router.open r s)).
Proof.
  destruct r as [q|b|id b|id]; simpl.
  - apply noauth_get_events_effect.
  - apply noauth_post_events_effect.
  - apply noauth_put_events_effect.
  - apply noauth_delete_events_effect.
Qed.

Lemma run_auth_effect (rs : list (N * Router.request)) :
  forall (all : Router.sessions) (s : store),
    effect blank_is_null s (snd (Router.run_auth rs all s)).
Proof.
  induction rs as [|[client r] rs IH]; intros all s; simpl;
    [apply untouched|].
  pose proof (auth_effect client r all s) as H1.
  destruct (Router.auth client r all s) as [[a all1] s1]. simpl in H1.
  pose proof (IH all1 s1) as H2.
  destruct (Router.run_auth rs all1 s1) as [[l all2] s2]. simpl in *.
  eapply effect_trans; eauto.
Qed.

Lemma run_open_effect (rs : list Router.open_request) :
  forall s : store, effect null_is_blank s (snd (Router.run_open rs s)).
Proof.
  induction rs as [|r rs IH]; intros s; simpl; [apply untouched|].
  pose proof (open_effect r s) as H1.
  destruct (Router.open r s) as [a s1]. simpl in H1.
  pose proof (IH s1) as H2.
  destruct (Router.run_open rs s1) as [l s2]. simpl in *.
  eapply effect_trans; eauto.
Qed.

(** X19. Whatever is sent, the store stays sound.  Starting from a store
    with keys in order and rows as the variant writes them (the empty
    table is one), any sequence of requests, by any clients and in any
    order, leaves the store in such a state: ids unique and below the next
    id, required columns non-empty, optional columns never the empty
    string (Supabase variant) or never null (SQLite variant); the users
    are as at the start.  Requests without a body and calls that the
    store fails, at any point of the sequence, are among what is sent. *)
Theorem run_keeps_store_sound :
  forall (rs : list (N * Router.request)) (os : list Router.open_request)
         (all : Router.sessions) (s : store),
    (sound blank_is_null s ->
     sound blank_is_null (snd (Router.run_auth rs all s)) /\
     users (snd (Router.run_auth rs all s)) = users s) /\
    (sound null_is_blank s ->
     sound null_is_blank (snd (Router.run_open os s)) /\
     users (snd (Router.run_open os s)) = users s).
Proof.
  intros rs os all s. split; intros [Hc Hr].
  - pose proof (run_auth_effect rs all s) as H. split; [split|].
    + exact (effect_consistent _ _ _ H Hc).
    + exact (effect_rows _ _ _ H Hr).
    + apply (effect_frame _ _ _ H).
  - pose proof (run_open_effect os s) as H. split; [split|].
    + exact (effect_consistent _ _ _ H Hc).
    + exact (effect_rows _ _ _ H Hr).
    + apply (effect_frame _ _ _ H).
Qed.

Lemma run_keeps_store_sound_witness :
  sound blank_is_null (snd (Router.run_auth busy_day Router.nobody Sample.db)) /\
  sound null_is_blank (snd (Router.run_open open_day Sample.empty)).
Proof.
  split.
  - apply (proj1 (run_keeps_store_sound busy_day open_day Router.nobody
                    Sample.db)).
    split; [exact sample_db_consistent|exact sample_db_tidy].
  - apply (proj2 (run_keeps_store_sound busy_day open_day Router.nobody
                    Sample.empty)).
    split; [exact sample_empty_consistent|exact sample_empty_tidy].
Defined.

Lemma auth_post_events_ids (sess : Auth.session) (b : Body.t) (s : store) :
  incl (ids s) (ids (snd (Auth.route_post_events sess b s))).
Proof.
  unfold Auth.route_post_events, Auth.requireAuth, Auth.post_events,
    Supabase.insert, ids.
  destruct sess as [u|]; [|apply incl_refl].
  destruct (incomplete b); [apply incl_refl|].
  simpl. destruct (fails s); simpl; [apply incl_refl|].
  rewrite map_app. apply incl_appl, incl_refl.
Qed.

Lemma auth_put_events_ids (sess : Auth.session) (id : N) (b : Body.t)
  (s : store) :
  ids (snd (Auth.route_put_events sess id b s)) = ids s.
Proof.
  unfold Auth.route_put_events, Auth.requireAuth, Auth.put_events,
    Supabase.update, ids.
  destruct sess as [u|]; [|reflexivity].
  destruct (incomplete b); [reflexivity|].
  simpl. destruct (fails s); simpl; [reflexivity|].
  match goal with
  | |- context [Supabase.maybeSingle ?l] =>
      destruct (Supabase.maybeSingle l) as [[row|] [err|] n]
  end; simpl; apply ids_rewritten.
Qed.

Lemma set_session_ok (us : list User.t) (client : N) (sess : Auth.session)
  (all : Router.sessions) :
  no_admin_session us all ->
  (forall u, sess = Some u ->
     exists user,
       In user us /\ User.active user = true /\ u = projection user /\
       User.role user <> "admin") ->
  no_admin_session us (Router.set_session client sess all).
Proof.
  intros Hall Hsess k u. unfold Router.set_session.
  destruct (k =? client)%N; [apply Hsess|apply Hall].
Qed.

Lemma auth_step_no_admin (client : N) (r : Router.request)
  (all : Router.sessions) (s : store) :
  (forall user, In user (users s) -> User.active user = true ->
                User.role user <> "admin") ->
  no_admin_session (users s) all ->
  incl (ids s) (ids (snd (Router.auth client r all s))) /\
  no_admin_session (users s) (snd (fst (Router.auth client r all s))).
Proof.
  intros Hna Hall. destruct r as [c| |q|b|id b|id]; simpl.
  - pose proof (post_login_reads c (all client) s) as (Hev & _ & _).
    pose proof (post_login_outcome c (all client) s) as Hout.
    destruct (Auth.post_login c (all client) s) as [[a sess'] s'].
    simpl in *. unfold ids. rewrite Hev. split; [apply incl_refl|].
    apply set_session_ok; [assumption|]. intros u ->.
    destruct Hout as [(code & msg & _ & [= _ Hs])
                     |(user & Hin & _ & Ha & _ & _ & _ & [= _ Hs])].
    + apply (Hall client u). now rewrite Hs.
    + exists user. repeat split; auto.
  - split; [apply incl_refl|].
    apply set_session_ok; [assumption|discriminate].
  - pose proof (auth_get_events_reads (all client) q s) as (Hev & _ & _).
    destruct (Auth.route_get_events (all client) q s) as [a s'].
    simpl in *. unfold ids. rewrite Hev. split; [apply incl_refl|assumption].
  - pose proof (auth_post_events_ids (all client) b s) as Hids.
    destruct (Auth.route_post_events (all client) b s) as [a s'].
    simpl in *. split; assumption.
  - pose proof (auth_put_events_ids (all client) id b s) as Hids.
    destruct (Auth.route_put_events (all client) id b s) as [a s'].
    simpl in *. rewrite Hids. split; [apply incl_refl|assumption].
  - unfold Auth.route_delete_events, Auth.requireAdmin.
    destruct (all client) as [u|] eqn:E; simpl;
      [|split; [apply incl_refl|assumption]].
    destruct (Hall client u E) as (user & _ & _ & -> & Hrole).
    simpl. apply String.eqb_neq in Hrole. rewrite Hrole. simpl.
    split; [apply incl_refl|assumption].
Qed.

Lemma run_auth_no_admin (rs : list (N * Router.request)) :
  forall (all : Router.sessions) (s : store),
    (forall user, In user (users s) -> User.active user = true ->
                  User.role user <> "admin") ->
    no_admin_session (users s) all ->
    incl (ids s) (ids (snd (Router.run_auth rs all s))) /\
    no_admin_session (users s) (snd (fst (Router.run_auth rs all s))).
Proof.
  induction rs as [|[client r] rs IH]; intros all s Hna Hall; simpl;
    [split; [apply incl_refl|assumption]|].
  pose proof (auth_step_no_admin client r all s Hna Hall) as [Hids Hsess].
  pose proof (effect_frame _ _ _ (auth_effect client r all s))
    as (_ & Husers & _).
  destruct (Router.auth client r all s) as [[a all1] s1]. simpl in *.
  rewrite <- Husers in Hna, Hsess.
  pose proof (IH all1 s1 Hna Hsess) as [Hids' Hsess'].
  destruct (Router.run_auth rs all1 s1) as [[l all2] s2]. simpl in *.
  rewrite Husers in Hsess'.
  split; [eapply incl_tran; eauto|assumption].
Qed.

(** X6. Without an active admin account nothing is ever deleted.  If no
    active stored user has the role [admin], then after any sequence of
    requests to the Supabase variant, by any clients starting without
    sessions (logins, logouts, lists, creates, updates and deletes in any
    order), every event id that was stored is still stored, and no client
    holds a session with the role [admin]. *)
Theorem without_admin_nothing_is_deleted :
  forall (rs : list (N * Router.request)) (s : store),
    (forall user, In user (users s) -> User.active user = true ->
                  User.role user <> "admin") ->
    incl (ids s) (ids (snd (Router.run_auth rs Router.nobody s))) /\
    (forall client u,
       snd (fst (Router.run_auth rs Router.nobody s)) client = Some u ->
       SessionUser.role u <> "admin").
Proof.
  intros rs s Hna.
  assert (Hnobody : no_admin_session (users s) Router.nobody)
    by (intros k u; discriminate).
  destruct (run_auth_no_admin rs Router.nobody s Hna Hnobody) as [Hids Hall].
  split; [assumption|].
  intros client u Hk. destruct (Hall client u Hk) as (user & _ & _ & -> & Hr).
  exact Hr.
Qed.

Lemma staff_only_has_no_admin :
  forall user, In user (users staff_only) -> User.active user = true ->
               User.role user <> "admin".
Proof.
  intros user [<-|[<-|[]]]; simpl; intros H; discriminate.
Qed.

Lemma without_admin_nothing_is_deleted_witness :
  incl (ids staff_only)
    (ids (snd (Router.run_auth busy_day Router.nobody staff_only))).
Proof.
  apply (without_admin_nothing_is_deleted busy_day staff_only
           staff_only_has_no_admin).
Defined.
